(** * LJSpeech data preparation (recipes/LJSpeech/TTS/ljspeech_prepare.py)

    A shallow embedding of the preparation script: the idempotence guard
    [skip], the session splitter [split_sets], the manifest writer
    [prepare_json], the symbol-inventory builder [create_symbol_file] and the
    entry point [prepare_ljspeech], followed by the properties of the
    specification that were checked against them. *)

From stdpp Require Import gmap strings list sorting.
From Stdlib Require Import Ascii ZArith Lia.

Local Open Scope Z_scope.

(** ** Exceptions and the error monad *)

Inductive exn : Type :=
  | IndexError
  | KeyError (key : string)
  | ZeroDivisionError
  | OverflowError
  | FileNotFoundError (path : string)
  | FileExistsError (path : string)
  | IsADirectoryError (path : string)
  | NotADirectoryError
  | AssertionError (msg : string)
  | DecodeError (path : string).

Inductive result (A : Type) : Type :=
  | Ok (a : A)
  | Raise (e : exn).
Arguments Ok {A} a.
Arguments Raise {A} e.

#[global] Instance result_ret : MRet result := λ A a, Ok a.
#[global] Instance result_bind : MBind result := λ A B f m,
  match m with
  | Ok a => f a
  | Raise e => Raise e
  end.

#[global] Instance result_fmap : FMap result := λ A B f m,
  match m with
  | Ok a => Ok (f a)
  | Raise e => Raise e
  end.

(** A [for] loop over a list, the body run in a monad: it stops at the
    first exception. *)
Fixpoint foldlM {M : Type → Type} `{!MBind M, !MRet M} {A B : Type}
    (f : A → B → M A) (a : A) (l : list B) : M A :=
  match l with
  | [] => mret a
  | b :: l' => a' ← f a b; foldlM f a' l'
  end.

(** [enumerate(l)] *)
Definition enumerate {A : Type} (l : list A) : list (nat * A) :=
  zip (seq 0 (length l)) l.

(** [l[i]] for a non-negative index. *)
Definition py_index {A : Type} (l : list A) (i : nat) : result A :=
  match l !! i with
  | Some x => Ok x
  | None => Raise IndexError
  end.

(** [d[k]] on a dict. *)
Definition py_getitem {V : Type} (d : gmap string V) (k : string) : result V :=
  match d !! k with
  | Some v => Ok v
  | None => Raise (KeyError k)
  end.

(** ** Strings *)

(** [s.split(sep)] for a one-character separator: never empty. *)
Fixpoint str_split (sep : ascii) (s : string) : list string :=
  match s with
  | EmptyString => [EmptyString]
  | String c s' =>
      if Ascii.eqb c sep then EmptyString :: str_split sep s'
      else match str_split sep s' with
           | [] => [String c EmptyString]
           | w :: ws => String c w :: ws
           end
  end.

(** [needle in hay] on strings. *)
Fixpoint str_contains (needle hay : string) : bool :=
  String.prefix needle hay ||
  match hay with
  | EmptyString => false
  | String _ hay' => str_contains needle hay'
  end.

Definition str_startswith (p s : string) : bool := String.prefix p s.

Fixpoint str_endswith_char (c : ascii) (s : string) : bool :=
  match s with
  | EmptyString => false
  | String d EmptyString => Ascii.eqb c d
  | String _ s' => str_endswith_char c s'
  end.

(** [c.lower()] on the ASCII range; other bytes are left as they are. *)
Definition ascii_lower (c : ascii) : ascii :=
  let n := nat_of_ascii c in
  if ((65 <=? n) && (n <=? 90))%nat then ascii_of_nat (n + 32) else c.

Fixpoint str_lower (s : string) : string :=
  match s with
  | EmptyString => EmptyString
  | String c s' => String (ascii_lower c) (str_lower s')
  end.

Fixpoint str_chars (s : string) : list ascii :=
  match s with
  | EmptyString => []
  | String c s' => c :: str_chars s'
  end.

(** [sep.join(parts)] *)
Fixpoint str_join (sep : string) (parts : list string) : string :=
  match parts with
  | [] => EmptyString
  | [p] => p
  | p :: ps => p +:+ sep +:+ str_join sep ps
  end.

(** [os.path.join(a, b)] on a POSIX system. *)
Definition os_path_join (a b : string) : string :=
  if str_startswith "/" b then b
  else if (String.eqb a EmptyString || str_endswith_char "/"%char a)%bool then a +:+ b
  else a +:+ "/" +:+ b.

(** ** Paths

    A path is kept as the script builds it.  The file system knows a place
    by the path without the slashes at its end: ["save/"] and ["save"] are
    one directory.  The components ["."] and [".."], doubled slashes
    inside a path and links are not resolved: two such spellings of one
    place count as two places. *)

Fixpoint has_slash (s : string) : bool :=
  match s with
  | EmptyString => false
  | String c s' => Ascii.eqb c "/" || has_slash s'
  end.

(** [s.rstrip("/")] *)
Fixpoint rstrip_slash (s : string) : string :=
  match s with
  | EmptyString => EmptyString
  | String c s' =>
      match rstrip_slash s' with
      | EmptyString => if Ascii.eqb c "/" then EmptyString else String c EmptyString
      | t => String c t
      end
  end.

(** The name a place has in the file system: the path without the slashes
    at its end, and the root for a path made of slashes. *)
Definition path_key (p : string) : string :=
  match rstrip_slash p with
  | EmptyString => if decide (p = EmptyString) then EmptyString else "/"
  | k => k
  end.

(** [p[:p.rfind("/") + 1]]: the path up to its last slash. *)
Fixpoint path_head (p : string) : string :=
  match p with
  | EmptyString => EmptyString
  | String c p' =>
      if has_slash p' then String c (path_head p')
      else if Ascii.eqb c "/" then "/" else EmptyString
  end.

(** The directory a place lies in ([os.path.dirname]); the empty path is
    the working directory. *)
Definition path_parent (k : string) : string := path_key (path_head k).

(** The directories on the way to [p], outermost first: the part of [p]
    before each of its slashes; [pre] is what has been walked through. *)
Fixpoint path_prefixes (pre p : string) : list string :=
  match p with
  | EmptyString => []
  | String c p' =>
      (if Ascii.eqb c "/" then [path_key pre] else [])
      ++ path_prefixes (pre +:+ String c EmptyString) p'
  end.

Definition path_ancestors (p : string) : list string :=
  path_prefixes EmptyString (path_key p).

(** ** Slices *)

(** The stop position of the slice [l[0:n]]: a negative [n] counts from the
    end, and positions are clipped to the list. *)
Definition slice_stop (len : nat) (n : Z) : nat :=
  if n <? 0 then Z.to_nat (Z.max 0 (Z.of_nat len + n))
  else Nat.min (Z.to_nat n) len.

(** [l[0:n]] *)
Definition py_slice0 {A : Type} (l : list A) (n : Z) : list A :=
  take (slice_stop (length l) n) l.

(** [del l[0:n]] *)
Definition py_del0 {A : Type} (l : list A) (n : Z) : list A :=
  drop (slice_stop (length l) n) l.

(** ** True division of integers and [int()]

    [a / b] on Python integers is the binary64 number nearest to the exact
    quotient (ties to even), and [int()] truncates towards zero.  A float
    is kept as [mant * 2 ^ expo] with a 53-bit significand.  Below the
    normal range a binary64 number has fewer bits than kept here; such
    quotients are smaller than one and [int()] sends them to zero either
    way. *)

Record float : Type := { mant : Z; expo : Z }.

(** The quotient [n / d] rounded to the nearest integer, ties to even. *)
Definition div_rne (n d : Z) : Z :=
  let q := n / d in
  let r := n mod d in
  if 2 * r <? d then q
  else if d <? 2 * r then q + 1
  else if Z.even q then q else q + 1.

(** [floor (log2 (A / B))] for positive [A] and [B]. *)
Definition quot_log2 (A B : Z) : Z :=
  let d := Z.log2 A - Z.log2 B in
  if 0 <=? d then (if B * 2 ^ d <=? A then d else d - 1)
  else (if B <=? A * 2 ^ (- d) then d else d - 1).

Definition py_truediv (a b : Z) : result float :=
  if b =? 0 then Raise ZeroDivisionError
  else if a =? 0 then Ok {| mant := 0; expo := 0 |}
  else
    let A := Z.abs a in
    let B := Z.abs b in
    let e := quot_log2 A B in
    let sh := 52 - e in
    let m := if 0 <=? sh then div_rne (A * 2 ^ sh) B
             else div_rne A (B * 2 ^ (- sh)) in
    if ((1023 <? e) || ((e =? 1023) && (m =? 2 ^ 53)))%bool
    then Raise OverflowError
    else Ok {| mant := Z.sgn a * Z.sgn b * m; expo := - sh |}.

(** [int(x)] *)
Definition py_int (x : float) : Z :=
  if 0 <=? expo x then mant x * 2 ^ expo x
  else Z.quot (mant x) (2 ^ (- expo x)).

(** [sum(l)] *)
Definition py_sum (l : list Z) : Z := foldr Z.add 0 l.

(** [int(a / b)] *)
Definition int_truediv (a b : Z) : result Z := py_int <$> py_truediv a b.

(** ** Dicts that keep insertion order

    [json_dict] is written out in insertion order, so it is kept as an
    association list: assigning to a key that is present replaces its value
    in place, a new key goes to the end. *)

Fixpoint dict_set {V : Type} (d : list (string * V)) (k : string) (v : V)
    : list (string * V) :=
  match d with
  | [] => [(k, v)]
  | (k', v') :: d' =>
      if decide (k' = k) then (k', v) :: d' else (k', v') :: dict_set d' k v
  end.

Fixpoint dict_get {V : Type} (d : list (string * V)) (k : string) : option V :=
  match d with
  | [] => None
  | (k', v') :: d' => if decide (k' = k) then Some v' else dict_get d' k
  end.

Definition dict_getitem {V : Type} (d : list (string * V)) (k : string) : result V :=
  match dict_get d k with
  | Some v => Ok v
  | None => Raise (KeyError k)
  end.

(** ** Data model *)

(** The preparation config record [conf]. *)
Record Conf : Type := {
  conf_data_folder : string;
  conf_splits : list string;
  conf_split_ratio : list Z;
  conf_save_folder : string;
  conf_seed : Z;
}.

#[global] Instance Conf_eq_dec : EqDecision Conf.
Proof. solve_decision. Defined.

(** One manifest entry: the dict stored under an [item_id]. *)
Record entry : Type := {
  wav : string;
  label : string;
  segment : bool;
  durations : option string;
}.

(** What a pickle file holds: a config record, or some other object. *)
Inductive pyobj : Type :=
  | PyConf (c : Conf)
  | PyOther (repr : string).

#[global] Instance pyobj_eq_dec : EqDecision pyobj.
Proof. solve_decision. Defined.

(** File contents are kept by kind rather than as bytes: text, a JSON
    manifest, or a pickled object.  Reading a file as another kind than it
    was written raises [DecodeError]. *)
Inductive content : Type :=
  | Text (s : string)
  | Json (d : list (string * entry))
  | Pickle (o : pyobj).

Inductive node : Type :=
  | Dir
  | File (c : content).

Inductive event : Type :=
  | EvLog (msg : string)
  | EvRead (path : string)
  | EvWrite (path : string)
  | EvMkdir (path : string)
  | EvExec (argv : list string).

(** ** Looking a path up

    The file system maps the name of a place to what is there.  It is
    meant to be a tree: what lies in a directory is there only when the
    directory is. *)

(** What is at the place [k], a name without slashes at its end.  The
    working directory (the empty name) and the root are always there. *)
Definition node_at (m : gmap string node) (k : string) : option node :=
  if decide (k = EmptyString ∨ k = "/") then Some Dir else m !! k.

(** What [stat(p)] finds: nothing for the empty path, and a file only
    under a path without a slash at its end. *)
Definition fs_at (m : gmap string node) (p : string) : option node :=
  if decide (p = EmptyString) then None
  else
    match node_at m (path_key p) with
    | Some (File c) => if decide (path_key p = p) then Some (File c) else None
    | o => o
    end.

(** [os.mkdir(d)] unless the directory is there. *)
Definition make_dir (m : gmap string node) (d : string) : result (gmap string node) :=
  match node_at m d with
  | None => Ok (<[d := Dir]> m)
  | Some Dir => Ok m
  | Some (File _) => Raise NotADirectoryError
  end.

(** ** What the script takes from its libraries

    The random generator ([random.seed], [random.shuffle]), the [csv]
    reader, external commands run through [subprocess.call] and the
    iteration order of a [set] are not code of the script.  They are taken
    as an interface; a shuffle rearranges the list, and iterating a set
    yields each element once. *)
Class Platform : Type := {
  rng_state : Type;
  random_seed : Z → rng_state;
  random_shuffle : rng_state → list nat → list nat * rng_state;
  random_shuffle_perm : ∀ g l, (random_shuffle g l).1 ≡ₚ l;
  csv_reader : string → list (list string);
  subprocess_call : list string → gmap string node → gmap string node;
  set_iter : gset ascii → list ascii;
  set_iter_perm : ∀ X, set_iter X ≡ₚ elements X;
}.

Section model.
Context `{Platform}.

(** The state the script runs in: the file system, the module-level random
    generator, and the effects performed so far. *)
Record world : Type := {
  fs : gmap string node;
  rng : rng_state;
  trace : list event;
}.

(** A computation of the script: it reads and changes the world, or
    raises.  An exception ends the run, and the world it leaves behind is
    not looked at. *)
Definition M (A : Type) : Type := world → result (A * world).

#[global] Instance M_ret : MRet M := λ A a w, Ok (a, w).
#[global] Instance M_bind : MBind M := λ A B f m w,
  match m w with
  | Ok (a, w') => f a w'
  | Raise e => Raise e
  end.

Definition lift {A : Type} (r : result A) : M A := λ w,
  match r with
  | Ok a => Ok (a, w)
  | Raise e => Raise e
  end.

Definition raise {A : Type} (e : exn) : M A := λ _, Raise e.

Definition add_event (w : world) (ev : event) : world :=
  {| fs := fs w; rng := rng w; trace := trace w ++ [ev] |}.

Definition with_fs (w : world) (m : gmap string node) : world :=
  {| fs := m; rng := rng w; trace := trace w |}.

Definition with_rng (w : world) (g : rng_state) : world :=
  {| fs := fs w; rng := g; trace := trace w |}.

Definition emit (ev : event) : M () := λ w, Ok ((), add_event w ev).

Definition get_fs : M (gmap string node) := λ w, Ok (fs w, w).

Definition set_fs (m : gmap string node) : M () := λ w, Ok ((), with_fs w m).

Definition get_rng : M rng_state := λ w, Ok (rng w, w).

Definition set_rng (g : rng_state) : M () := λ w, Ok ((), with_rng w g).

(** [logger.info(msg)] *)
Definition logger_info (msg : string) : M () := emit (EvLog msg).

(** [os.path.exists(p)] *)
Definition os_path_exists (p : string) : M bool :=
  m ← get_fs; mret (bool_decide (is_Some (fs_at m p))).

(** [os.path.isfile(p)] *)
Definition os_path_isfile (p : string) : M bool :=
  m ← get_fs;
  mret (match fs_at m p with Some (File _) => true | _ => false end).

(** [os.makedirs(p)]: the directories on the way are made as well. *)
Definition os_makedirs (p : string) : M () :=
  m ← get_fs;
  if decide (p = EmptyString) then raise (FileNotFoundError p)
  else
    match node_at m (path_key p) with
    | Some _ => raise (FileExistsError p)
    | None =>
        m ← lift (foldlM make_dir m (path_ancestors p));
        set_fs (<[path_key p := Dir]> m);; emit (EvMkdir p)
    end.

(** [open(p)] and reading the whole file. *)
Definition read_file (p : string) : M content :=
  m ← get_fs;
  if decide (p = EmptyString) then raise (FileNotFoundError p)
  else
    match node_at m (path_key p) with
    | Some (File c) =>
        if decide (path_key p = p) then emit (EvRead p);; mret c
        else raise NotADirectoryError
    | Some Dir => raise (IsADirectoryError p)
    | None => raise (FileNotFoundError p)
    end.

(** [open(p, "w")] and writing [c]: the directory the file lies in has to
    be there; the file is made, or replaced wholesale. *)
Definition write_file (p : string) (c : content) : M () :=
  m ← get_fs;
  if decide (p = EmptyString) then raise (FileNotFoundError p)
  else
    match node_at m (path_parent (path_key p)) with
    | None => raise (FileNotFoundError p)
    | Some (File _) => raise NotADirectoryError
    | Some Dir =>
        match node_at m (path_key p) with
        | Some Dir => raise (IsADirectoryError p)
        | Some (File _) =>
            if decide (path_key p = p)
            then set_fs (<[p := File c]> m);; emit (EvWrite p)
            else raise NotADirectoryError
        | None =>
            if decide (path_key p = p)
            then set_fs (<[p := File c]> m);; emit (EvWrite p)
            else raise (IsADirectoryError p)
        end
    end.

(** [subprocess.call(argv)]: the exit code is not looked at. *)
Definition call (argv : list string) : M () :=
  m ← get_fs; set_fs (subprocess_call argv m);; emit (EvExec argv).

(** Modelled from the spec: [load_pkl] of [speechbrain.dataio.dataio], the
    generic deserialize-from-disk utility that reads back the persisted
    object. *)
Definition load_pkl (p : string) : M pyobj :=
  c ← read_file p;
  match c with
  | Pickle o => mret o
  | _ => raise (DecodeError p)
  end.

(** Modelled from the spec: [save_pkl] of [speechbrain.dataio.dataio], the
    generic serialize-to-disk utility. *)
Definition save_pkl (o : pyobj) (p : string) : M () := write_file p (Pickle o).

(** Modelled from the spec: [load_data_json] of [speechbrain.dataio.dataio],
    which loads a JSON manifest back into a dict. *)
Definition load_data_json (p : string) : M (list (string * entry)) :=
  c ← read_file p;
  match c with
  | Json d => mret d
  | _ => raise (DecodeError p)
  end.

(** ** The script *)

Definition OPT_FILE : string := "opt_ljspeech_prepare.pkl".
Definition METADATA_CSV : string := "metadata.csv".
Definition TRAIN_JSON : string := "train.json".
Definition VALID_JSON : string := "valid.json".
Definition TEST_JSON : string := "test.json".
Definition WAVS : string := "wavs".
Definition DURATIONS : string := "durations".

(** The tab character, ['\t']. *)
Definition TAB : string := String (ascii_of_nat 9) EmptyString.

(** *** [skip] *)

Definition split_files : gmap string string :=
  {[ "train" := TRAIN_JSON; "valid" := VALID_JSON; "test" := TEST_JSON ]}.

(** The body of the loop [for split in splits]. *)
Definition skip_body (save_folder : string) (skip : bool) (split : string) : M bool :=
  name ← lift (py_getitem split_files split);
  isf ← os_path_isfile (os_path_join save_folder name);
  mret (if negb isf then false else skip).

Definition skip (splits : list string) (save_folder : string) (conf : Conf) : M bool :=
  skip ← foldlM (skip_body save_folder) true splits;
  let save_opt := os_path_join save_folder OPT_FILE in
  if (skip : bool) then
    isf ← os_path_isfile save_opt;
    if (isf : bool) then
      opts_old ← load_pkl save_opt;
      if decide (opts_old = PyConf conf) then mret true else mret false
    else mret false
  else mret skip.

(** *** [split_sets]: grouping rows by session *)

Record group_state : Type := {
  gs_index_for_sessions : list (list nat);
  gs_session_id_start : string;
  gs_index_this_session : list nat;
}.

(** The body of the loop [for i in range(len(meta_csv))]. *)
Definition group_body (meta_csv : list (list string)) (st : group_state) (i : nat)
    : result group_state :=
  row ← py_index meta_csv i;
  item_id ← py_index row 0;
  session_id ← py_index (str_split "-" item_id) 0;
  if decide (session_id = gs_session_id_start st) then
    let this := gs_index_this_session st ++ [i] in
    if decide (i = length meta_csv - 1)%nat then
      Ok {| gs_index_for_sessions := gs_index_for_sessions st ++ [this];
            gs_session_id_start := gs_session_id_start st;
            gs_index_this_session := this |}
    else
      Ok {| gs_index_for_sessions := gs_index_for_sessions st;
            gs_session_id_start := gs_session_id_start st;
            gs_index_this_session := this |}
  else
    Ok {| gs_index_for_sessions := gs_index_for_sessions st ++ [gs_index_this_session st];
          gs_session_id_start := session_id;
          gs_index_this_session := [i] |}.

Definition group_init : group_state :=
  {| gs_index_for_sessions := [];
     gs_session_id_start := "LJ001";
     gs_index_this_session := [] |}.

(** [index_for_sessions] as it stands when the grouping loop is over. *)
Definition group_sessions (meta_csv : list (list string)) : result (list (list nat)) :=
  gs_index_for_sessions <$>
    foldlM (group_body meta_csv) group_init (seq 0 (length meta_csv)).

(** *** [split_sets]: allocating the groups to the splits *)

Record split_state : Type := {
  index_for_sessions : list (list nat);
  data_split : gmap string (list nat);
  rng_now : rng_state;
}.

(** [int(session_len[j] * split_ratio[i] / sum(split_ratio))] *)
Definition n_snts_of (session_len : list nat) (split_ratio : list Z) (i j : nat)
    : result Z :=
  len ← py_index session_len j;
  r ← py_index split_ratio i;
  int_truediv (Z.of_nat len * r) (py_sum split_ratio).

(** Shuffle group [j], move its first [n_snts] indices to the split. *)
Definition take_step (session_len : list nat) (split_ratio : list Z)
    (i : nat) (split : string) (j : nat) (st : split_state) : result split_state :=
  pool ← py_index (index_for_sessions st) j;
  let shuffled := random_shuffle (rng_now st) pool in
  n_snts ← n_snts_of session_len split_ratio i j;
  cur ← py_getitem (data_split st) split;
  Ok {| index_for_sessions := <[j := py_del0 shuffled.1 n_snts]> (index_for_sessions st);
        data_split := <[split := cur ++ py_slice0 shuffled.1 n_snts]> (data_split st);
        rng_now := shuffled.2 |}.

(** Copy what is left of group [j] to the split; the group keeps it. *)
Definition keep_step (split : string) (j : nat) (st : split_state) : result split_state :=
  pool ← py_index (index_for_sessions st) j;
  cur ← py_getitem (data_split st) split;
  Ok {| index_for_sessions := index_for_sessions st;
        data_split := <[split := cur ++ pool]> (data_split st);
        rng_now := rng_now st |}.

(** The body of the loop [for j in range(len(index_for_sessions))]: three
    [if]s in a row. *)
Definition split_body (splits : list string) (session_len : list nat)
    (split_ratio : list Z) (i : nat) (split : string) (st : split_state) (j : nat)
    : result split_state :=
  st ← (if decide (split = "train")
        then take_step session_len split_ratio i split j st else Ok st);
  st ← (if decide (split = "valid")
        then (if decide ("test" ∈ splits)
              then take_step session_len split_ratio i split j st
              else keep_step split j st)
        else Ok st);
  if decide (split = "test") then keep_step split j st else Ok st.

(** One round of [for i, split in enumerate(splits)]. *)
Definition split_pass (splits : list string) (session_len : list nat)
    (split_ratio : list Z) (st : split_state) (it : nat * string) : result split_state :=
  let st := {| index_for_sessions := index_for_sessions st;
               data_split := <[it.2 := []]> (data_split st);
               rng_now := rng_now st |} in
  foldlM (split_body splits session_len split_ratio it.1 it.2) st
         (seq 0 (length (index_for_sessions st))).

Definition split_loop (splits : list string) (split_ratio : list Z)
    (groups : list (list nat)) (g : rng_state) : result split_state :=
  let session_len := length <$> groups in
  foldlM (split_pass splits session_len split_ratio)
         {| index_for_sessions := groups; data_split := ∅; rng_now := g |}
         (enumerate splits).

Definition split_sets (data_folder : string) (splits : list string)
    (split_ratio : list Z) : M (gmap string (list nat) * list (list string)) :=
  let meta_csv := os_path_join data_folder METADATA_CSV in
  c ← read_file meta_csv;
  text ← match c with Text s => mret s | _ => raise (DecodeError meta_csv) end;
  let meta_csv := csv_reader text in
  groups ← lift (group_sessions meta_csv);
  g ← get_rng;
  st ← lift (split_loop splits split_ratio groups g);
  set_rng (rng_now st);;
  mret (data_split st, meta_csv).

(** *** [prepare_json] *)

(** The body of the loop [for index in seg_lst]. *)
Definition json_body (json_file wavs_folder : string) (csv_rows : list (list string))
    (durations_folder : option string) (json_dict : list (string * entry))
    (index : nat) : result (list (string * entry)) :=
  row ← py_index csv_rows index;
  id ← py_index row 0;
  let wav_path := os_path_join wavs_folder (id +:+ ".wav") in
  row ← py_index csv_rows index;
  lab ← py_index row 2;
  let json_dict :=
    dict_set json_dict id
      {| wav := wav_path;
         label := lab;
         segment := if str_contains "train" json_file then true else false;
         durations := None |} in
  match durations_folder with
  | Some folder =>
      let duration_path := os_path_join folder (id +:+ ".npy") in
      e ← dict_getitem json_dict id;
      Ok (dict_set json_dict id
            {| wav := wav e; label := label e; segment := segment e;
               durations := Some duration_path |})
  | None => Ok json_dict
  end.

Definition prepare_json (seg_lst : list nat) (json_file wavs_folder : string)
    (csv_rows : list (list string)) (durations_folder : option string) : M () :=
  json_dict ← lift (foldlM (json_body json_file wavs_folder csv_rows durations_folder)
                           [] seg_lst);
  write_file json_file (Json json_dict);;
  logger_info (json_file +:+ " successfully created!").

(** *** [create_symbol_file] *)

(** The body of [for id in data]: [char_set.update( *line.lower())]. *)
Definition symbol_body (data : list (string * entry)) (char_set : gset ascii)
    (id : string) : result (gset ascii) :=
  e ← dict_getitem data id;
  let line := label e in
  Ok (char_set ∪ list_to_set (str_chars (str_lower line))).

Definition create_symbol_file (save_folder save_json_train : string) : M () :=
  let lexicon_path := os_path_join save_folder "lexicon" in
  present ← os_path_exists lexicon_path;
  if (present : bool) then logger_info "Symbols file present"
  else
    logger_info "Symbols file not present, creating from training data.";;
    data ← load_data_json save_json_train;
    char_set ← lift (foldlM (symbol_body data) ∅ data.*1);
    write_file lexicon_path
      (Text (str_join TAB ((λ c, String c EmptyString) <$> set_iter char_set))).

(** *** [prepare_ljspeech] *)

Definition prepare_ljspeech (data_folder save_folder : string)
    (splits : list string) (split_ratio : list Z) (seed : Z) (skip_prep : bool)
    (kwargs : gmap string string) : M () :=
  set_rng (random_seed seed);;
  if skip_prep then mret ()
  else
    let conf := {| conf_data_folder := data_folder;
                   conf_splits := splits;
                   conf_split_ratio := split_ratio;
                   conf_save_folder := save_folder;
                   conf_seed := seed |} in
    present ← os_path_exists save_folder;
    (if negb present then os_makedirs save_folder else mret ());;
    let meta_csv := os_path_join data_folder METADATA_CSV in
    let wavs_folder := os_path_join data_folder WAVS in
    let save_opt := os_path_join save_folder OPT_FILE in
    let save_json_train := os_path_join save_folder TRAIN_JSON in
    let save_json_valid := os_path_join save_folder VALID_JSON in
    let save_json_test := os_path_join save_folder TEST_JSON in
    durations_folder ←
      match kwargs !! "duration_link" with
      | Some link =>
          let durations_folder := os_path_join data_folder "durations" in
          present ← os_path_exists durations_folder;
          (if negb present then
             logger_info "Downloading durations for fastspeech training";;
             call ["wget"; "-q"; link];;
             call ["unzip"; "-qq"; "ljspeech_DFA_durations.zip"];;
             call ["mv"; "durations"; durations_folder];;
             call ["rm"; "-r"; "ljspeech_DFA_durations.zip"]
           else mret ());;
          mret (Some durations_folder)
      | None => mret None
      end;
    done_before ← skip splits save_folder conf;
    if (done_before : bool) then
      logger_info "Skipping preparation, completed in previous run."
    else
      present ← os_path_exists meta_csv;
      (if (present : bool) then mret () else raise (AssertionError "metadata.csv does not exist"));;
      present ← os_path_exists wavs_folder;
      (if (present : bool) then mret () else raise (AssertionError "wavs/ folder does not exist"));;
      logger_info "Creating json file for ljspeech Dataset..";;
      '(data_split, meta_csv) ← split_sets data_folder splits split_ratio;
      (if decide ("train" ∈ splits) then
         seg_lst ← lift (py_getitem data_split "train");
         prepare_json seg_lst save_json_train wavs_folder meta_csv durations_folder
       else mret ());;
      (if decide ("valid" ∈ splits) then
         seg_lst ← lift (py_getitem data_split "valid");
         prepare_json seg_lst save_json_valid wavs_folder meta_csv durations_folder
       else mret ());;
      (if decide ("test" ∈ splits) then
         seg_lst ← lift (py_getitem data_split "test");
         prepare_json seg_lst save_json_test wavs_folder meta_csv durations_folder
       else mret ());;
      (if decide (is_Some (kwargs !! "create_symbol_list")) then
         create_symbol_file save_folder save_json_train
       else mret ());;
      save_pkl (PyConf conf) save_opt.

End model.

(** ** A platform to run the script on

    The shuffle reverses the list, the csv reader cuts the text at line
    feeds and each line at ["|"] (a blank line is an empty row), external
    commands leave the file system alone, and a set is iterated in the order
    of [elements]. *)

(** The line feed. *)
Definition LF : ascii := ascii_of_nat 10.

Definition demo_csv_reader (text : string) : list (list string) :=
  (λ line, if decide (line = EmptyString) then [] else str_split "|" line)
    <$> (match reverse (str_split LF text) with
         | EmptyString :: ls => reverse ls
         | ls => reverse ls
         end).

Definition demo_shuffle (g : Z) (l : list nat) : list nat * Z := (reverse l, g + 1).

#[local] Instance demo_platform : Platform := {|
  rng_state := Z;
  random_seed := λ seed, seed;
  random_shuffle := demo_shuffle;
  random_shuffle_perm := λ g l, reverse_Permutation l;
  csv_reader := demo_csv_reader;
  subprocess_call := λ _ m, m;
  set_iter := elements;
  set_iter_perm := λ X, reflexivity (elements X);
|}.

(** Helpers to set examples up: a catalog text from its lines, and a world
    holding the catalog and the wavs folder under [data/], and an empty
    folder [out/]. *)
Definition csv_lines (rows : list string) : string :=
  str_join (String LF EmptyString) rows.

Definition demo_world (text : string) : world :=
  {| fs := {[ "data" := Dir; "data/metadata.csv" := File (Text text);
              "data/wavs" := Dir; "out" := Dir ]};
     rng := 0;
     trace := [] |}.

(** Two rows of one session. *)
Definition one_session : string :=
  csv_lines ["LJ001-0001|a|A"; "LJ001-0002|b|B"].

(** A session of one row after another session. *)
Definition lone_last_session : string :=
  csv_lines ["LJ001-0001|a|A"; "LJ002-0001|b|B"].

(** Ten rows of session LJ001, then five of session LJ002. *)
Definition two_sessions : string :=
  csv_lines
    (((λ k, "LJ001-000" +:+ String (ascii_of_nat (48 + k)) EmptyString +:+ "|a|A")
        <$> seq 0 10)
     ++ ((λ k, "LJ002-000" +:+ String (ascii_of_nat (48 + k)) EmptyString +:+ "|b|B")
        <$> seq 0 5)).

(** Two rows with one [item_id]. *)
Definition twin_rows : list (list string) :=
  [["LJ001-0001"; "n"; "first"]; ["LJ001-0001"; "n"; "second"]].

(** A training manifest with the labels "Hello" and "World". *)
Definition hello_world_manifest : list (string * entry) :=
  [("LJ001-0001",
    {| wav := "w/LJ001-0001.wav"; label := "Hello"; segment := true;
       durations := None |});
   ("LJ001-0002",
    {| wav := "w/LJ001-0002.wav"; label := "World"; segment := true;
       durations := None |})].

(** A world whose save folder [out] holds that manifest and no lexicon. *)
Definition hello_world_world : world :=
  {| fs := {[ "out" := Dir; "out/train.json" := File (Json hello_world_manifest) ]};
     rng := 0;
     trace := [] |}.

(** The configuration of a run on [data] that saves to [out]. *)
Definition demo_conf : Conf :=
  {| conf_data_folder := "data";
     conf_splits := ["train"; "valid"];
     conf_split_ratio := [90; 10];
     conf_save_folder := "out";
     conf_seed := 1234 |}.

(** A world such a run has left: the manifests of train and valid and
    the options file are in [out/]. *)
Definition done_world : world :=
  {| fs := {[ "out" := Dir;
              "out/train.json" := File (Json []);
              "out/valid.json" := File (Json []);
              "out/opt_ljspeech_prepare.pkl" := File (Pickle (PyConf demo_conf)) ]};
     rng := 0;
     trace := [] |}.

(** * Vocabulary of the properties

    Notions the statements and their proofs use: what the code reads from
    a row, the steps of its loops taken apart, and what the loops keep
    true. *)

(** ** Paths and folders *)

(** A file name: not empty and without a slash. *)
Definition file_name (b : string) : Prop := b ≠ EmptyString ∧ has_slash b = false.

(** The folder [a] is there, as a directory; the empty path stands for the
    working directory. *)
Definition folder_there (m : gmap string node) (a : string) : Prop :=
  node_at m (path_key a) = Some Dir.

(** ** Manifests and the guard *)

(** The names a split can have. *)
Definition split_names : list string := ["train"; "valid"; "test"].

(** The manifest file of split [s] is a file of the save folder.  By
    the specification the manifests of the splits train, valid and test
    are the files [train.json], [valid.json] and [test.json]. *)
Definition manifest_present (m : gmap string node) (save_folder s : string) : Prop :=
  s ∈ split_names
  ∧ ∃ c, m !! os_path_join save_folder (s +:+ ".json") = Some (File c).

(** Assigning a run of key-value pairs, as a loop does. *)
Definition dict_set_all {V : Type} (d kvs : list (string * V)) : list (string * V) :=
  foldl (λ d kv, dict_set d kv.1 kv.2) d kvs.

(** The two fields [prepare_json] reads from row [index]: the [item_id]
    and the label. *)
Definition row_fields (rows : list (list string)) (index : nat)
    : result (string * string) :=
  row ← py_index rows index;
  id ← py_index row 0;
  lab ← py_index row 2;
  Ok (id, lab).

(** The [item_id] of row [index]. *)
Definition item_id_of (rows : list (list string)) (index : nat) : option string :=
  row ← rows !! index; row !! 0%nat.

(** The entry [prepare_json] stores for an [item_id] and a label. *)
Definition entry_of (json_file wavs_folder : string) (durations_folder : option string)
    (id_lab : string * string) : entry :=
  {| wav := os_path_join wavs_folder (id_lab.1 +:+ ".wav");
     label := id_lab.2;
     segment := str_contains "train" json_file;
     durations := (λ folder, os_path_join folder (id_lab.1 +:+ ".npy"))
                    <$> durations_folder |}.

(** ** Sessions *)

(** The session prefix of row [i]: [meta_csv[i][0].split("-")[0]]. *)
Definition session_id_at (meta_csv : list (list string)) (i : nat) : result string :=
  row ← py_index meta_csv i;
  item_id ← py_index row 0;
  py_index (str_split "-" item_id) 0.

(** Row [row] belongs to session [sid]. *)
Definition in_session (row : list string) (sid : string) : Prop :=
  ∃ item_id, row !! 0%nat = Some item_id ∧ str_split "-" item_id !! 0%nat = Some sid.

(** What one round of the grouping loop does with the session prefix of
    its row; [n] is [len(meta_csv)]. *)
Definition group_step (n : nat) (st : group_state) (i : nat) (session_id : string)
    : group_state :=
  if decide (session_id = gs_session_id_start st) then
    let this := gs_index_this_session st ++ [i] in
    if decide (i = n - 1)%nat then
      {| gs_index_for_sessions := gs_index_for_sessions st ++ [this];
         gs_session_id_start := gs_session_id_start st;
         gs_index_this_session := this |}
    else
      {| gs_index_for_sessions := gs_index_for_sessions st;
         gs_session_id_start := gs_session_id_start st;
         gs_index_this_session := this |}
  else
    {| gs_index_for_sessions := gs_index_for_sessions st ++ [gs_index_this_session st];
       gs_session_id_start := session_id;
       gs_index_this_session := [i] |}.

(** While the loop runs, the closed groups and the open one together list
    the rows seen so far; after the last round the closed groups list all
    rows, or all but the last. *)
Definition group_inv (n i : nat) (st : group_state) : Prop :=
  ((i < n)%nat →
     concat (gs_index_for_sessions st) ++ gs_index_this_session st = seq 0 i)
  ∧ (i = n → ∃ m, (m ≤ n)%nat ∧ concat (gs_index_for_sessions st) = seq 0 m).

(** The grouping sees a row only through its session prefix. *)
Definition group_ids (ids : list string) : list (list nat) :=
  gs_index_for_sessions
    (foldl (λ st it, group_step (length ids) st it.1 it.2) group_init (enumerate ids)).

(** The maximal runs of equal session prefixes, as lists of row indices, by
    the words of the specification: walk the rows in order, add to the
    open group while the prefix stays, close it and open a new one when
    the prefix changes, close the last one at the end.  [i] is the index
    of the next row, [prev] the prefix of the open group [cur]. *)
Fixpoint runs_from (i : nat) (prev : string) (cur : list nat) (ids : list string)
    : list (list nat) :=
  match ids with
  | [] => [cur]
  | sid :: ids' =>
      if decide (sid = prev) then runs_from (S i) prev (cur ++ [i]) ids'
      else cur :: runs_from (S i) sid [i] ids'
  end.

Definition session_runs (ids : list string) : list (list nat) :=
  match ids with
  | [] => []
  | sid :: ids' => runs_from 1 sid [0%nat] ids'
  end.

(** Whether the last row continues the session before it; [prev] is the
    prefix before the first row. *)
Fixpoint last_continues (prev : string) (ids : list string) : bool :=
  match ids with
  | [] => true
  | [sid] => bool_decide (sid = prev)
  | sid :: ids' => last_continues sid ids'
  end.

(** A list without its last element. *)
Definition but_last {A : Type} (l : list A) : list A := take (length l - 1) l.

(** ** Rounds of the allocation *)

(** What a round of the outer loop does with each group: move a share of
    it to the split, copy what is left of it, or nothing. *)
Inductive pass_kind : Type := Take | Keep | Idle.

#[global] Instance pass_kind_eq_dec : EqDecision pass_kind.
Proof. solve_decision. Defined.

(** The kind of the round of [split], read off the three [if]s of the
    loop body. *)
Definition kind_of (splits : list string) (split : string) : pass_kind :=
  if decide (split = "train") then Take
  else if decide (split = "valid") then
    (if decide ("test" ∈ splits) then Take else Keep)
  else if decide (split = "test") then Keep
  else Idle.

(** Only the last round may copy groups without taking from them. *)
Definition orderly (splits : list string) : Prop :=
  NoDup splits
  ∧ Forall (λ s, kind_of splits s ≠ Keep) (take (length splits - 1) splits).

#[global] Instance orderly_dec splits : Decision (orderly splits).
Proof. unfold orderly. apply _. Defined.

(** ** The allocation in the order train, valid, test

    The splitting algorithm by the words of the specification: for each
    requested split in the order train, valid, test; train shuffles what
    is left of each group and takes the first
    [floor(group_size * ratio / sum(ratios))] indices, valid does the same
    when test is requested too and takes all that is left otherwise, and
    test takes whatever is left. *)

(** [floor(group_size * ratio / sum(ratios))] *)
Definition share (group_size : nat) (ratio total : Z) : nat :=
  Z.to_nat (Z.of_nat group_size * ratio / total).

(** The ratio at the position that split [s] has in [splits]. *)
Definition ratio_of (splits : list string) (split_ratio : list Z) (s : string) : Z :=
  default 0 (it ← list_find (λ x, x = s) splits; split_ratio !! it.1).

(** A split takes its share of every group: what is left of the group is
    put in some order, its first indices, as many as the share of the
    group, go to the split, group after group, and leave the pool. *)
Definition takes_share (groups pools : list (list nat)) (ratio total : Z)
    (taken : list nat) (pools' : list (list nat)) : Prop :=
  ∃ shuffled,
    Forall2 (≡ₚ) shuffled pools
    ∧ taken = concat (zip_with (λ sh G, take (share (length G) ratio total) sh)
                               shuffled groups)
    ∧ pools' = zip_with (λ sh G, drop (share (length G) ratio total) sh)
                        shuffled groups.

(** The lists [ds] are an allocation of the groups to the requested splits
    in the order train, valid, test. *)
Definition allocated_in_order (splits : list string) (split_ratio : list Z)
    (groups : list (list nat)) (ds : gmap string (list nat)) : Prop :=
  let total := py_sum split_ratio in
  ∃ pools1 pools2,
    (if decide ("train" ∈ splits)
     then ∃ taken, takes_share groups groups (ratio_of splits split_ratio "train")
                     total taken pools1
                   ∧ ds !! "train" = Some taken
     else pools1 = groups ∧ ds !! "train" = None)
    ∧ (if decide ("valid" ∈ splits)
       then if decide ("test" ∈ splits)
            then ∃ taken, takes_share groups pools1
                            (ratio_of splits split_ratio "valid") total taken pools2
                          ∧ ds !! "valid" = Some taken
            else pools2 = pools1 ∧ ds !! "valid" = Some (concat pools1)
       else pools2 = pools1 ∧ ds !! "valid" = None)
    ∧ (if decide ("test" ∈ splits)
       then ds !! "test" = Some (concat pools2)
       else ds !! "test" = None).

Section vocabulary.
Context `{Platform}.

(** What [skip] does once the manifests have been looked at. *)
Definition skip_tail (save_folder : string) (conf : Conf) (skip : bool) : M bool :=
  if skip then
    isf ← os_path_isfile (os_path_join save_folder OPT_FILE);
    if (isf : bool) then
      opts_old ← load_pkl (os_path_join save_folder OPT_FILE);
      if decide (opts_old = PyConf conf) then mret true else mret false
    else mret false
  else mret skip.

(** One round of the outer loop, by its kind. *)
Definition pass_spec (kind : pass_kind) (session_len : list nat)
    (split_ratio : list Z) (i : nat)
    (split : string) (st st' : split_state) : Prop :=
  match kind with
  | Take =>
      ∃ shs ns,
        Forall2 (≡ₚ) shs (index_for_sessions st)
        ∧ Forall2 (λ j n, n_snts_of session_len split_ratio i j = Ok n)
                  (seq 0 (length (index_for_sessions st))) ns
        ∧ index_for_sessions st' = zip_with py_del0 shs ns
        ∧ data_split st' = <[split := concat (zip_with py_slice0 shs ns)]> (data_split st)
  | Keep =>
      index_for_sessions st' = index_for_sessions st
      ∧ data_split st' = <[split := concat (index_for_sessions st)]> (data_split st)
      ∧ rng_now st' = rng_now st
  | Idle =>
      index_for_sessions st' = index_for_sessions st
      ∧ data_split st' = <[split := []]> (data_split st)
      ∧ rng_now st' = rng_now st
  end.

(** Groups and splits hold numbers below [n] only. *)
Definition bounded (n : nat) (st : split_state) : Prop :=
  (∀ x, x ∈ concat (index_for_sessions st) → (x < n)%nat)
  ∧ (∀ s l x, data_split st !! s = Some l → x ∈ l → (x < n)%nat).

(** The splits filled so far, as a list, and the groups hold every index of
    [all] once. *)
Definition settled (all : list nat) (keys : list string) (st : split_state) : Prop :=
  ∃ allocs,
    data_split st = list_to_map allocs
    ∧ allocs.*1 = keys
    ∧ concat allocs.*2 ++ concat (index_for_sessions st) ≡ₚ all.

(** What the rounds keep true of one group [G], at position [j0]: the
    groups only shrink, group [j0] still holds its share of the ratios not
    yet served, and once train has been served its list is cut from the
    groups, with the floor of the share of [G]. *)
Definition count_inv (splits : list string) (split_ratio : list Z)
    (groups : list (list nat)) (j0 : nat) (G : list nat) (p : nat) (r : Z)
    (i : nat) (st : split_state) : Prop :=
  Forall2 (⊆) (index_for_sessions st) groups
  ∧ (∃ pool, index_for_sessions st !! j0 = Some pool
           ∧ Z.of_nat (length G) * py_sum (drop i split_ratio)
             ≤ Z.of_nat (length pool) * py_sum split_ratio)
  ∧ ((p < i)%nat →
     ∃ pieces piece,
       data_split st !! "train" = Some (concat pieces)
       ∧ Forall2 (⊆) pieces groups
       ∧ pieces !! j0 = Some piece
       ∧ length piece = Z.to_nat (Z.of_nat (length G) * r / py_sum split_ratio)).

End vocabulary.

(** * Properties *)

(** Unfolds the primitives of the world monad. *)
Ltac unfold_M :=
  cbv beta iota delta
    [mbind M_bind mret M_ret lift raise emit get_fs set_fs get_rng set_rng
     add_event with_fs with_rng
     logger_info os_path_exists os_path_isfile os_makedirs read_file
     write_file call load_pkl save_pkl load_data_json].

(** ** Paths *)

Section path_facts.

Lemma has_slash_app (a b : string) : has_slash (a +:+ b) = has_slash a || has_slash b.
Proof.
  induction a as [|c a IH]; [done|].
  change (String c a +:+ b) with (String c (a +:+ b)). cbn [has_slash].
  by rewrite IH, orb_assoc.
Qed.

Lemma endswith_app (c : ascii) (a b : string) :
  b ≠ EmptyString → str_endswith_char c (a +:+ b) = str_endswith_char c b.
Proof.
  intros Hb. induction a as [|d a IH]; [done|].
  change (String d a +:+ b) with (String d (a +:+ b)).
  destruct (a +:+ b) as [|e t] eqn:Hab.
  - destruct a; [simpl in Hab; done|done].
  - rewrite <-IH. done.
Qed.

Lemma endswith_no_slash (b : string) :
  has_slash b = false → str_endswith_char "/" b = false.
Proof.
  induction b as [|c b IH]; [done|]. cbn [has_slash].
  intros [Hc Hb]%orb_false_iff. destruct b as [|d b]; [|by apply IH].
  cbn [str_endswith_char]. by rewrite Ascii.eqb_sym.
Qed.

Lemma endswith_snoc (c : ascii) (a : string) :
  str_endswith_char c a = true → ∃ a0, a = a0 +:+ String c EmptyString.
Proof.
  induction a as [|d a IH]; [done|]. destruct a as [|e a].
  - cbn [str_endswith_char]. intros ->%Ascii.eqb_eq. by exists EmptyString.
  - intros Ha. destruct (IH Ha) as [a0 Ha0]. exists (String d a0).
    change (String d a0 +:+ String c EmptyString)
      with (String d (a0 +:+ String c EmptyString)).
    by rewrite <-Ha0.
Qed.

Lemma rstrip_slash_id (s : string) :
  s ≠ EmptyString → str_endswith_char "/" s = false → rstrip_slash s = s.
Proof.
  induction s as [|c s IH]; [done|]. intros _. destruct s as [|d s].
  - cbn [str_endswith_char rstrip_slash]. rewrite Ascii.eqb_sym. by intros ->.
  - intros Hs. change (rstrip_slash (String c (String d s)))
      with (match rstrip_slash (String d s) with
            | EmptyString => if Ascii.eqb c "/" then EmptyString else String c EmptyString
            | t => String c t
            end).
    by rewrite IH.
Qed.

Lemma path_key_id (s : string) :
  s ≠ EmptyString → str_endswith_char "/" s = false → path_key s = s.
Proof.
  intros Hs He. unfold path_key. rewrite rstrip_slash_id by done. by destruct s.
Qed.

Lemma rstrip_slash_snoc (a : string) : rstrip_slash (a +:+ "/") = rstrip_slash a.
Proof.
  induction a as [|c a IH]; [done|].
  change (String c a +:+ "/") with (String c (a +:+ "/")).
  cbn [rstrip_slash]. by rewrite IH.
Qed.

Lemma path_key_snoc (a : string) : a ≠ EmptyString → path_key (a +:+ "/") = path_key a.
Proof.
  intros Ha. unfold path_key. rewrite rstrip_slash_snoc.
  destruct (rstrip_slash a); [|done].
  rewrite decide_False by (by destruct a). by rewrite decide_False.
Qed.

Lemma path_key_empty (p : string) : path_key p = EmptyString → p = EmptyString.
Proof.
  unfold path_key. destruct (rstrip_slash p); [|done]. by case_decide.
Qed.

Lemma path_head_name (b : string) : has_slash b = false → path_head b = EmptyString.
Proof.
  destruct b as [|c b]; [done|]. cbn [has_slash path_head].
  intros [Hc Hb]%orb_false_iff. by rewrite Hb, Hc.
Qed.

Lemma path_head_app (a b : string) :
  has_slash b = false → path_head (a +:+ "/" +:+ b) = a +:+ "/".
Proof.
  intros Hb. induction a as [|c a IH].
  - change ("" +:+ "/" +:+ b) with (String "/" b). cbn [path_head].
    by rewrite Hb.
  - change (String c a +:+ "/" +:+ b) with (String c (a +:+ "/" +:+ b)).
    cbn [path_head]. rewrite has_slash_app.
    change (has_slash ("/" +:+ b)) with (true || has_slash b).
    rewrite orb_true_r. by rewrite IH.
Qed.

Lemma os_path_join_name (a b : string) :
  file_name b →
  (os_path_join a b = b ∧ a = EmptyString)
  ∨ (∃ a0, a = a0 +:+ "/" ∧ os_path_join a b = a0 +:+ "/" +:+ b)
  ∨ (a ≠ EmptyString ∧ os_path_join a b = a +:+ "/" +:+ b).
Proof.
  intros [Hne Hb]. unfold os_path_join, str_startswith.
  assert (String.prefix "/" b = false) as ->.
  { destruct b as [|c b]; [done|]. cbn [has_slash] in Hb.
    apply orb_false_iff in Hb as [Hc _]. apply Ascii.eqb_neq in Hc.
    cbn [String.prefix]. destruct (ascii_dec "/" c) as [<-|?]; done. }
  destruct (decide (a = EmptyString)) as [->|Ha]; [by left|]. right.
  assert (String.eqb a EmptyString = false) as -> by (by apply String.eqb_neq).
  cbn [orb]. destruct (str_endswith_char "/" a) eqn:He.
  - left. apply endswith_snoc in He as [a0 ->]. exists a0. split; [done|].
    clear. induction a0 as [|d a0 IH]; [done|].
    change (String d a0 +:+ "/") with (String d (a0 +:+ "/")).
    change (String d (a0 +:+ "/") +:+ b) with (String d ((a0 +:+ "/") +:+ b)).
    by rewrite IH.
  - right. by split.
Qed.

Lemma os_path_join_key (a b : string) :
  file_name b →
  os_path_join a b ≠ EmptyString ∧ os_path_join a b ≠ "/"
  ∧ path_key (os_path_join a b) = os_path_join a b.
Proof.
  intros Hb. pose proof Hb as [Hne Hslash].
  assert (He : str_endswith_char "/" (os_path_join a b) = false).
  { assert (Hj : ∀ x, str_endswith_char "/" (x +:+ "/" +:+ b) = false).
    { intros x. rewrite endswith_app by done.
      change ("/" +:+ b) with (String "/" b). destruct b as [|c b]; [done|].
      by apply (endswith_no_slash (String c b)). }
    destruct (os_path_join_name a b Hb) as [[-> _]|[(a0 & _ & ->)|(_ & ->)]];
      [by apply endswith_no_slash|apply Hj..]. }
  assert (Hn : os_path_join a b ≠ EmptyString).
  { destruct (os_path_join_name a b Hb) as [[-> _]|[(a0 & _ & ->)|(_ & ->)]];
      [done|by destruct a0|by destruct a]. }
  split; [done|]. split; [by intros Heq; rewrite Heq in He|].
  by apply path_key_id.
Qed.

Lemma os_path_join_parent (a b : string) :
  file_name b → path_parent (os_path_join a b) = path_key a.
Proof.
  intros Hb. pose proof Hb as [Hne Hslash]. unfold path_parent.
  destruct (os_path_join_name a b Hb) as [[-> ->]|[(a0 & -> & ->)|(Ha & ->)]].
  - by rewrite path_head_name.
  - by rewrite path_head_app.
  - rewrite path_head_app by done. by apply path_key_snoc.
Qed.

End path_facts.

(** ** The world monad *)

Section monad_facts.
Context `{Platform}.

Lemma bind_eq {A B : Type} (m : M A) (f : A → M B) (w : world) :
  (m ≫= f) w = match m w with Ok (a, w') => f a w' | Raise e => Raise e end.
Proof. reflexivity. Qed.

Lemma bind_ok {A B : Type} (m : M A) (f : A → M B) (w w' : world) (a : A) :
  m w = Ok (a, w') → (m ≫= f) w = f a w'.
Proof. intros Hm. by rewrite bind_eq, Hm. Qed.

Lemma bind_inv {A B : Type} (m : M A) (f : A → M B) (w : world) (r : B * world) :
  (m ≫= f) w = Ok r → ∃ a w1, m w = Ok (a, w1) ∧ f a w1 = Ok r.
Proof.
  rewrite bind_eq. destruct (m w) as [[a w1]|e]; [|done]. intros ?. by exists a, w1.
Qed.

Lemma lift_ok {A : Type} (r : result A) (a : A) (w : world) :
  r = Ok a → lift r w = Ok (a, w).
Proof. by intros ->. Qed.

Lemma logger_info_eq msg w : logger_info msg w = Ok ((), add_event w (EvLog msg)).
Proof. reflexivity. Qed.

Lemma os_path_exists_eq p w :
  os_path_exists p w = Ok (bool_decide (is_Some (fs_at (fs w) p)), w).
Proof. reflexivity. Qed.

Lemma os_path_isfile_eq p w :
  os_path_isfile p w
  = Ok (match fs_at (fs w) p with Some (File _) => true | _ => false end, w).
Proof. reflexivity. Qed.

Lemma read_file_inv p c w w' :
  read_file p w = Ok (c, w') →
  fs_at (fs w) p = Some (File c) ∧ w' = add_event w (EvRead p).
Proof.
  unfold read_file, fs_at. unfold_M.
  destruct (decide (p = EmptyString)); [done|].
  destruct (node_at (fs w) (path_key p)) as [[|c']|]; [done| |done].
  destruct (decide (path_key p = p)); [|done]. by intros [= <- <-].
Qed.

Lemma read_file_ok p c w :
  fs_at (fs w) p = Some (File c) → read_file p w = Ok (c, add_event w (EvRead p)).
Proof.
  unfold read_file, fs_at. unfold_M.
  destruct (decide (p = EmptyString)); [done|].
  destruct (node_at (fs w) (path_key p)) as [[|c']|]; [done| |done].
  destruct (decide (path_key p = p)); [|done]. by intros [= <-].
Qed.

Lemma write_file_inv p c w w' :
  write_file p c w = Ok ((), w') →
  path_key p = p
  ∧ w' = add_event (with_fs w (<[p := File c]> (fs w))) (EvWrite p).
Proof.
  unfold write_file. unfold_M.
  destruct (decide (p = EmptyString)); [done|].
  destruct (node_at (fs w) (path_parent (path_key p))) as [[|c0]|]; [|done..].
  destruct (node_at (fs w) (path_key p)) as [[|c']|]; [done| |];
    (destruct (decide (path_key p = p)); [|done]); by intros [= <-].
Qed.

Lemma write_file_ok p c w :
  p ≠ EmptyString → path_key p = p →
  node_at (fs w) (path_parent p) = Some Dir →
  node_at (fs w) p ≠ Some Dir →
  write_file p c w = Ok ((), add_event (with_fs w (<[p := File c]> (fs w))) (EvWrite p)).
Proof.
  intros Hp Hkey Hparent Hnode. unfold write_file. unfold_M.
  rewrite decide_False by done. rewrite Hkey, Hparent.
  destruct (node_at (fs w) p) as [[|c']|]; [done| |]; by rewrite decide_True.
Qed.

Lemma fs_at_join m a b :
  file_name b → fs_at m (os_path_join a b) = m !! os_path_join a b.
Proof.
  intros (Hne & Hroot & Hkey)%(os_path_join_key a). unfold fs_at, node_at.
  rewrite decide_False by done. rewrite Hkey.
  rewrite decide_False by (by intros [?|?]).
  destruct (m !! os_path_join a b) as [[|c]|]; [done| |done].
  by rewrite decide_True.
Qed.

(** Writing a file of a folder that is there. *)
Lemma write_file_join a b c w :
  file_name b → folder_there (fs w) a →
  fs w !! os_path_join a b ≠ Some Dir →
  write_file (os_path_join a b) c w
  = Ok ((), add_event (with_fs w (<[os_path_join a b := File c]> (fs w)))
              (EvWrite (os_path_join a b))).
Proof.
  intros Hb Ha Hnode. pose proof (os_path_join_key a b Hb) as (Hne & Hroot & Hkey).
  apply write_file_ok; [done..| |].
  - by rewrite os_path_join_parent.
  - unfold node_at. by rewrite decide_False by (by intros [?|?]).
Qed.

Lemma load_data_json_ok p d w :
  fs_at (fs w) p = Some (File (Json d)) →
  load_data_json p w = Ok (d, add_event w (EvRead p)).
Proof.
  intros Hp. unfold load_data_json. by rewrite (bind_ok _ _ _ _ _ (read_file_ok _ _ _ Hp)).
Qed.

End monad_facts.

(** ** The idempotence guard *)

Section skip_facts.
Context `{Platform}.

Lemma split_files_spec (s : string) :
  split_files !! s = if decide (s ∈ split_names) then Some (s +:+ ".json") else None.
Proof.
  unfold split_files, split_names.
  destruct (decide (s = "train")) as [->|Htrain]; [done|].
  rewrite lookup_insert_ne by done.
  destruct (decide (s = "valid")) as [->|Hvalid]; [done|].
  rewrite lookup_insert_ne by done.
  destruct (decide (s = "test")) as [->|Htest]; [done|].
  rewrite lookup_singleton_ne by done.
  rewrite decide_False; [done|].
  rewrite !elem_of_cons, elem_of_nil. by intros [?|[?|[?|?]]].
Qed.

Lemma manifest_file_name (s : string) :
  s ∈ split_names → file_name (s +:+ ".json").
Proof.
  unfold split_names. rewrite !elem_of_cons, elem_of_nil.
  by intros [->|[->|[->|?]]].
Qed.

Lemma skip_body_known save_folder b s w :
  s ∈ split_names →
  skip_body save_folder b s w
  = Ok (match fs w !! os_path_join save_folder (s +:+ ".json") with
        | Some (File _) => b
        | _ => false
        end, w).
Proof.
  intros Hs. unfold skip_body, py_getitem.
  rewrite split_files_spec, decide_True by done.
  rewrite (bind_ok _ _ _ _ _ (lift_ok _ _ w eq_refl)).
  rewrite bind_eq, os_path_isfile_eq, fs_at_join by (by apply manifest_file_name).
  unfold mret, M_ret.
  by destruct (fs w !! os_path_join save_folder (s +:+ ".json")) as [[|c]|].
Qed.

Lemma skip_body_unknown save_folder b s w :
  s ∉ split_names → skip_body save_folder b s w = Raise (KeyError s).
Proof.
  intros Hs. unfold skip_body, py_getitem.
  rewrite split_files_spec, decide_False by done. done.
Qed.

Lemma skip_body_present save_folder b s w :
  manifest_present (fs w) save_folder s →
  skip_body save_folder b s w = Ok (b, w).
Proof. intros (Hs & c & Hf). by rewrite skip_body_known, Hf. Qed.

Lemma skip_body_absent save_folder b s w :
  s ∈ split_names → ¬ manifest_present (fs w) save_folder s →
  skip_body save_folder b s w = Ok (false, w).
Proof.
  intros Hs Hno. rewrite skip_body_known by done.
  destruct (fs w !! os_path_join save_folder (s +:+ ".json")) as [[|c]|] eqn:Hf;
    try done.
  destruct Hno. split; [done|]. by exists c.
Qed.

Lemma skip_loop_ok save_folder splits b w b' w' :
  foldlM (skip_body save_folder) b splits w = Ok (b', w') →
  w' = w
  ∧ Forall (λ s, s ∈ split_names) splits
  ∧ (b' = true ↔ b = true ∧ Forall (manifest_present (fs w) save_folder) splits).
Proof.
  revert b. induction splits as [|s splits IH]; intros b; simpl.
  - intros [= <- <-]. split; [done|]. split; [done|].
    split; [by intros ->|by intros [-> _]].
  - rewrite bind_eq. destruct (decide (s ∈ split_names)) as [Hs|Hs];
      [|by rewrite skip_body_unknown].
    rewrite skip_body_known by done.
    intros (-> & Hknown & Hiff)%IH. split; [done|]. split; [by constructor|].
    rewrite Hiff, Forall_cons. unfold manifest_present at 2.
    destruct (fs w !! os_path_join save_folder (s +:+ ".json")) as [[|c]|] eqn:Hf.
    + split; [by intros [? _]|]. by intros (_ & (_ & c & ?) & _).
    + split; [intros [-> ?]|intros (-> & _ & ?)]; [|done].
      split; [done|]. split; [|done]. split; [done|]. by exists c.
    + split; [by intros [? _]|]. by intros (_ & (_ & c & ?) & _).
Qed.

Lemma skip_loop_present save_folder splits b w :
  Forall (manifest_present (fs w) save_folder) splits →
  foldlM (skip_body save_folder) b splits w = Ok (b, w).
Proof.
  induction 1 as [|s splits Hs _ IH]; simpl; [done|].
  rewrite bind_eq. by rewrite skip_body_present.
Qed.

Lemma skip_loop_total save_folder splits b w :
  Forall (λ s, s ∈ split_names) splits →
  ∃ b', foldlM (skip_body save_folder) b splits w = Ok (b', w).
Proof.
  intros Hknown. revert b.
  induction Hknown as [|s splits Hs _ IH]; intros b; simpl; [by eexists|].
  rewrite bind_eq, skip_body_known by done. apply IH.
Qed.

Lemma skip_loop_absent save_folder splits b w :
  Forall (λ s, s ∈ split_names) splits →
  ¬ Forall (manifest_present (fs w) save_folder) splits →
  foldlM (skip_body save_folder) b splits w = Ok (false, w).
Proof.
  intros Hknown Hno.
  destruct (skip_loop_total save_folder splits b w Hknown) as [b' Hloop].
  rewrite Hloop. apply skip_loop_ok in Hloop as (_ & _ & Hiff).
  destruct b'; [|done]. by destruct Hno, (proj1 Hiff eq_refl).
Qed.

Lemma skip_unfold splits save_folder conf w :
  skip splits save_folder conf w =
  match foldlM (skip_body save_folder) true splits w with
  | Ok (b, w') => skip_tail save_folder conf b w'
  | Raise e => Raise e
  end.
Proof. reflexivity. Qed.

Lemma opt_file_name : file_name OPT_FILE.
Proof. done. Qed.

Lemma skip_tail_true save_folder conf b w w' :
  skip_tail save_folder conf b w = Ok (true, w') ↔
  b = true
  ∧ fs w !! os_path_join save_folder OPT_FILE = Some (File (Pickle (PyConf conf)))
  ∧ w' = add_event w (EvRead (os_path_join save_folder OPT_FILE)).
Proof.
  unfold skip_tail. destruct b; [|by split; [|intros [? _]]].
  rewrite bind_eq, os_path_isfile_eq, fs_at_join by apply opt_file_name.
  destruct (fs w !! os_path_join save_folder OPT_FILE) as [[|c]|] eqn:Hf;
    try by (split; [|intros (_ & ? & _)]).
  unfold load_pkl. rewrite !bind_eq.
  rewrite (read_file_ok _ c w) by (by rewrite fs_at_join by apply opt_file_name).
  destruct c as [s|d|o]; try by (split; [|intros (_ & ? & _)]).
  unfold mret, M_ret.
  destruct (decide (o = PyConf conf)) as [->|Hne].
  - split; [by intros [= <-]|by intros (_ & _ & ->)].
  - split; [done|]. intros (_ & [= ?] & _). done.
Qed.

Lemma skip_tail_missing save_folder conf b w :
  (∀ c, fs w !! os_path_join save_folder OPT_FILE ≠ Some (File c)) →
  skip_tail save_folder conf b w = Ok (false, w).
Proof.
  intros Hno. unfold skip_tail. destruct b; [|done].
  rewrite bind_eq, os_path_isfile_eq, fs_at_join by apply opt_file_name.
  destruct (fs w !! os_path_join save_folder OPT_FILE) as [[|c]|] eqn:Hf; try done.
  by destruct (Hno c).
Qed.

Lemma skip_tail_other save_folder conf w o :
  fs w !! os_path_join save_folder OPT_FILE = Some (File (Pickle o)) →
  o ≠ PyConf conf →
  skip_tail save_folder conf true w
  = Ok (false, add_event w (EvRead (os_path_join save_folder OPT_FILE))).
Proof.
  intros Hf Hne. unfold skip_tail.
  rewrite bind_eq, os_path_isfile_eq, fs_at_join by apply opt_file_name.
  rewrite Hf. unfold load_pkl. rewrite !bind_eq.
  rewrite (read_file_ok _ (Pickle o) w)
    by (by rewrite fs_at_join by apply opt_file_name).
  unfold mret, M_ret. by rewrite decide_False.
Qed.

(** C6.  [skip] returns true exactly when the manifest file of every
    requested split ([train.json], [valid.json], [test.json]) is a file of
    the save folder and the persisted configuration file
    [opt_ljspeech_prepare.pkl] is there and holds the current
    configuration record.  It returns false when all manifests are there
    but the persisted configuration file is not; when a manifest of a
    requested split is missing; and when the persisted configuration
    differs from the current one. *)
Theorem skip_true_iff (splits : list string) (save_folder : string) (conf : Conf)
    (w : world) :
  ((∃ w', skip splits save_folder conf w = Ok (true, w')) ↔
     Forall (manifest_present (fs w) save_folder) splits
     ∧ fs w !! os_path_join save_folder "opt_ljspeech_prepare.pkl"
       = Some (File (Pickle (PyConf conf))))
  ∧ (Forall (manifest_present (fs w) save_folder) splits →
     (∀ c, fs w !! os_path_join save_folder "opt_ljspeech_prepare.pkl"
           ≠ Some (File c)) →
     skip splits save_folder conf w = Ok (false, w))
  ∧ (Forall (λ s, s ∈ ["train"; "valid"; "test"]) splits →
     ¬ Forall (manifest_present (fs w) save_folder) splits →
     skip splits save_folder conf w = Ok (false, w))
  ∧ (Forall (manifest_present (fs w) save_folder) splits →
     ∀ o, fs w !! os_path_join save_folder "opt_ljspeech_prepare.pkl"
          = Some (File (Pickle o)) →
          o ≠ PyConf conf →
          skip splits save_folder conf w
          = Ok (false, add_event w (EvRead (os_path_join save_folder
                                              "opt_ljspeech_prepare.pkl")))).
Proof.
  change "opt_ljspeech_prepare.pkl" with OPT_FILE.
  split; [split|split; [|split]].
  - intros [w' Hskip]. rewrite skip_unfold in Hskip.
    destruct (foldlM (skip_body save_folder) true splits w) as [[b w1]|e] eqn:Hloop;
      [|done].
    apply skip_loop_ok in Hloop as (-> & _ & Hb).
    apply skip_tail_true in Hskip as (-> & Hopt & _).
    split; [by apply Hb|done].
  - intros [Hall Hopt]. eexists. rewrite skip_unfold.
    rewrite (skip_loop_present _ _ _ _ Hall). apply skip_tail_true. eauto.
  - intros Hall Hno. rewrite skip_unfold.
    rewrite (skip_loop_present _ _ _ _ Hall). by apply skip_tail_missing.
  - intros Hknown Hno. rewrite skip_unfold.
    by rewrite (skip_loop_absent _ _ _ _ Hknown Hno).
  - intros Hall o Hopt Hne. rewrite skip_unfold.
    rewrite (skip_loop_present _ _ _ _ Hall). by apply (skip_tail_other _ _ _ o).
Qed.

End skip_facts.

(** ** Insertion-ordered dicts *)

Section dict_facts.
Context {V : Type}.
Implicit Types (d : list (string * V)) (k : string) (v : V).

Lemma dict_get_set d k v k' :
  dict_get (dict_set d k v) k' = if decide (k = k') then Some v else dict_get d k'.
Proof.
  induction d as [|[k0 v0] d IH]; csimpl.
  - by destruct (decide (k = k')).
  - destruct (decide (k0 = k)) as [->|Hne]; csimpl.
    + by destruct (decide (k = k')).
    + destruct (decide (k0 = k')) as [->|?]; [|done].
      by destruct (decide (k = k')); [subst|].
Qed.

Lemma dict_set_set d k v v' : dict_set (dict_set d k v) k v' = dict_set d k v'.
Proof.
  induction d as [|[k0 v0] d IH]; csimpl.
  - by rewrite decide_True.
  - destruct (decide (k0 = k)) as [->|Hne]; csimpl.
    + by rewrite decide_True.
    + by rewrite decide_False, IH.
Qed.

Lemma dict_set_keys d k v :
  (dict_set d k v).*1 = if decide (k ∈ d.*1) then d.*1 else d.*1 ++ [k].
Proof.
  induction d as [|[k0 v0] d IH]; csimpl; [done|].
  destruct (decide (k0 = k)) as [->|Hne]; csimpl.
  - rewrite decide_True; [done|]. apply elem_of_cons. by left.
  - rewrite IH. destruct (decide (k ∈ d.*1)) as [Hin|Hnin].
    + rewrite decide_True; [done|]. apply elem_of_cons. by right.
    + rewrite decide_False; [done|]. rewrite elem_of_cons. by intros [?|?].
Qed.

Lemma dict_set_NoDup d k v : NoDup d.*1 → NoDup (dict_set d k v).*1.
Proof.
  intros Hd. rewrite dict_set_keys. destruct (decide (k ∈ d.*1)); [done|].
  apply NoDup_app. split; [done|]. split; [|apply NoDup_singleton].
  intros x Hx ->%list_elem_of_singleton. done.
Qed.

Lemma dict_set_Forall (P : V → Prop) d k v :
  Forall (λ kv, P kv.2) d → P v → Forall (λ kv, P kv.2) (dict_set d k v).
Proof.
  intros Hd Hv. induction Hd as [|[k0 v0] d Hk Hd IH]; csimpl.
  - by constructor.
  - destruct (decide (k0 = k)); by constructor.
Qed.

Lemma dict_get_Some_elem d k v : dict_get d k = Some v → (k, v) ∈ d.
Proof.
  induction d as [|[k0 v0] d IH]; csimpl; [done|].
  destruct (decide (k0 = k)) as [->|?].
  - intros [= ->]. by left.
  - intros ?. right. by apply IH.
Qed.

Lemma dict_set_all_NoDup d kvs : NoDup d.*1 → NoDup (dict_set_all d kvs).*1.
Proof.
  revert d. induction kvs as [|[k v] kvs IH]; intros d Hd; csimpl; [done|].
  apply IH. by apply dict_set_NoDup.
Qed.

Lemma dict_set_all_keys d kvs x :
  x ∈ (dict_set_all d kvs).*1 → x ∈ d.*1 ∨ x ∈ kvs.*1.
Proof.
  revert d. induction kvs as [|[k v] kvs IH]; intros d; csimpl; [by left|].
  intros [Hx|Hx]%IH; [|right; by right].
  rewrite dict_set_keys in Hx. destruct (decide (k ∈ d.*1)); [by left|].
  apply elem_of_app in Hx as [?| ->%list_elem_of_singleton]; [by left|].
  right. by left.
Qed.

Lemma dict_set_all_Forall (P : V → Prop) d kvs :
  Forall (λ kv, P kv.2) d → Forall (λ kv, P kv.2) kvs →
  Forall (λ kv, P kv.2) (dict_set_all d kvs).
Proof.
  intros Hd Hkvs. revert d Hd.
  induction Hkvs as [|[k v] kvs Hk _ IH]; intros d Hd; csimpl; [done|].
  apply IH. by apply dict_set_Forall.
Qed.

Lemma dict_get_set_all_other d kvs k :
  k ∉ kvs.*1 → dict_get (dict_set_all d kvs) k = dict_get d k.
Proof.
  revert d. induction kvs as [|[k0 v0] kvs IH]; intros d Hk; csimpl; [done|].
  csimpl in Hk. apply not_elem_of_cons in Hk as [Hne Hk].
  rewrite IH by done. rewrite dict_get_set. by rewrite decide_False.
Qed.

(** The value left under a key is the one assigned last. *)
Lemma dict_get_set_all_last d kvs1 k v kvs2 :
  k ∉ kvs2.*1 →
  dict_get (dict_set_all d (kvs1 ++ (k, v) :: kvs2)) k = Some v.
Proof.
  intros Hk. unfold dict_set_all. rewrite foldl_app. csimpl.
  fold (dict_set_all (dict_set (foldl (λ d kv, dict_set d kv.1 kv.2) d kvs1) k v) kvs2).
  rewrite dict_get_set_all_other by done.
  rewrite dict_get_set. by rewrite decide_True.
Qed.

End dict_facts.

(** ** The manifest writer *)

Section prepare_json_facts.
Context `{Platform}.

Lemma row_fields_item_id rows index id lab :
  row_fields rows index = Ok (id, lab) → item_id_of rows index = Some id.
Proof.
  unfold row_fields, item_id_of, py_index.
  destruct (rows !! index) as [row|]; [|done]. simpl.
  destruct (row !! 0%nat) as [id'|]; [|done]. simpl.
  destruct (row !! 2%nat) as [lab'|]; [|done]. simpl. by intros [= -> _].
Qed.

Lemma json_body_eq json_file wavs_folder rows durations_folder d index :
  json_body json_file wavs_folder rows durations_folder d index =
  (kv ← row_fields rows index;
   Ok (dict_set d kv.1 (entry_of json_file wavs_folder durations_folder kv))).
Proof.
  unfold json_body, row_fields, entry_of, py_index.
  destruct (rows !! index) as [row|]; [|done]. simpl.
  destruct (row !! 0%nat) as [id|]; [|done]. simpl.
  destruct (row !! 2%nat) as [lab|]; [|done]. simpl.
  destruct durations_folder as [folder|]; simpl.
  - unfold dict_getitem. rewrite dict_get_set, decide_True by done. simpl.
    rewrite dict_set_set. by destruct (str_contains "train" json_file).
  - by destruct (str_contains "train" json_file).
Qed.

Lemma json_loop json_file wavs_folder rows durations_folder seg_lst d d' :
  foldlM (json_body json_file wavs_folder rows durations_folder) d seg_lst = Ok d' →
  ∃ kvs, Forall2 (λ index kv, row_fields rows index = Ok kv) seg_lst kvs
       ∧ d' = dict_set_all d
                ((λ kv, (kv.1, entry_of json_file wavs_folder durations_folder kv))
                   <$> kvs).
Proof.
  revert d. induction seg_lst as [|index seg_lst IH]; intros d; simpl.
  - intros [= <-]. exists []. by split; [constructor|].
  - rewrite json_body_eq.
    destruct (row_fields rows index) as [kv|e] eqn:Hkv; [|done]. simpl.
    intros (kvs & Hkvs & ->)%IH. exists (kv :: kvs). by split; [constructor|].
Qed.

Lemma prepare_json_inv seg_lst json_file wavs_folder rows durations_folder w w' :
  prepare_json seg_lst json_file wavs_folder rows durations_folder w = Ok ((), w') →
  ∃ d, foldlM (json_body json_file wavs_folder rows durations_folder) [] seg_lst = Ok d
     ∧ fs w' = <[json_file := File (Json d)]> (fs w).
Proof.
  unfold prepare_json. rewrite bind_eq. unfold lift at 1.
  destruct (foldlM _ [] seg_lst) as [d|e]; [|done].
  intros ([] & w1 & [_ ->]%write_file_inv & Hlog)%bind_inv.
  rewrite logger_info_eq in Hlog. injection Hlog as <-. by exists d.
Qed.

(** Every entry of a written manifest carries the same [segment] flag:
    whether the text "train" occurs in the path of the manifest. *)
Lemma prepare_json_segment seg_lst json_file wavs_folder rows durations_folder w w' :
  prepare_json seg_lst json_file wavs_folder rows durations_folder w = Ok ((), w') →
  ∃ d, fs w' !! json_file = Some (File (Json d))
     ∧ Forall (λ kv, segment kv.2 = str_contains "train" json_file) d.
Proof.
  intros (d & Hloop & Hfs)%prepare_json_inv. exists d.
  split; [by rewrite Hfs, lookup_insert_eq|].
  apply json_loop in Hloop as (kvs & _ & ->).
  apply (dict_set_all_Forall (λ e, segment e = str_contains "train" json_file));
    [constructor|].
  apply Forall_fmap, Forall_forall. by intros kv _.
Qed.

(** C9.  When two of the indices given to [prepare_json] are rows with the
    same [item_id], the manifest has one entry per key, the entry under
    that [item_id] is built from the row whose index comes last in the
    list, and the manifest has fewer entries than indices were given. *)
Theorem prepare_json_same_item_id (seg_lst : list nat) (json_file wavs_folder : string)
    (rows : list (list string)) (durations_folder : option string) (w w' : world)
    (p q i1 i2 : nat) (id : string) :
  (p < q)%nat →
  seg_lst !! p = Some i1 → seg_lst !! q = Some i2 →
  item_id_of rows i1 = Some id → item_id_of rows i2 = Some id →
  prepare_json seg_lst json_file wavs_folder rows durations_folder w = Ok ((), w') →
  ∃ d, fs w' !! json_file = Some (File (Json d))
     ∧ NoDup d.*1
     ∧ (length d < length seg_lst)%nat
     ∧ ∃ k ilast lab,
         seg_lst !! k = Some ilast
         ∧ row_fields rows ilast = Ok (id, lab)
         ∧ (∀ k' i', (k < k')%nat → seg_lst !! k' = Some i' →
                     item_id_of rows i' ≠ Some id)
         ∧ dict_get d id
           = Some (entry_of json_file wavs_folder durations_folder (id, lab)).
Proof.
  intros Hpq Hp Hq Hid1 Hid2 (d & Hloop & Hfs)%prepare_json_inv.
  exists d. split; [by rewrite Hfs, lookup_insert_eq|].
  apply json_loop in Hloop as (kvs & Hkvs & ->).
  set (mk := λ kv : string * string,
               (kv.1, entry_of json_file wavs_folder durations_folder kv)).
  assert (Hkeys : (mk <$> kvs).*1 = kvs.*1).
  { rewrite <-list_fmap_compose. by apply list_fmap_ext. }
  assert (Hat : ∀ k i, seg_lst !! k = Some i →
            ∃ kv, kvs !! k = Some kv ∧ row_fields rows i = Ok kv).
  { intros k i Hk. destruct (Forall2_lookup_l _ _ _ _ _ Hkvs Hk) as (kv & ? & ?).
    by exists kv. }
  destruct (Hat _ _ Hp) as ([id1 lab1] & Hkp & Hf1).
  destruct (Hat _ _ Hq) as ([id2 lab2] & Hkq & Hf2).
  pose proof (row_fields_item_id _ _ _ _ Hf1) as Hid1'.
  pose proof (row_fields_item_id _ _ _ _ Hf2) as Hid2'.
  rewrite Hid1 in Hid1'. rewrite Hid2 in Hid2'.
  injection Hid1' as <-. injection Hid2' as <-.
  split; [|split].
  - apply dict_set_all_NoDup. constructor.
  - (* the keys are distinct and all occur among the ids with position [p] left out *)
    assert (Hlen : (length (dict_set_all [] (mk <$> kvs)).*1
                    ≤ length (delete p kvs.*1))%nat).
    { apply submseteq_length, NoDup_submseteq; [apply dict_set_all_NoDup; constructor|].
      intros x [Hx|Hx]%dict_set_all_keys; [by apply elem_of_nil in Hx|].
      rewrite Hkeys in Hx. apply list_elem_of_lookup in Hx as [k Hk].
      destruct (decide (k = p)) as [->|Hne].
      - (* the id at position [p] is also at position [q] *)
        rewrite list_lookup_fmap, Hkp in Hk. injection Hk as <-.
        apply list_elem_of_lookup. exists (q - 1)%nat.
        rewrite list_lookup_delete_ge by lia.
        replace (S (q - 1)) with q by lia. by rewrite list_lookup_fmap, Hkq.
      - apply list_elem_of_lookup.
        destruct (decide (k < p)%nat).
        + exists k. by rewrite list_lookup_delete_lt.
        + exists (k - 1)%nat. rewrite list_lookup_delete_ge by lia.
          by replace (S (k - 1)) with k by lia. }
    rewrite length_fmap in Hlen.
    rewrite length_delete in Hlen by (rewrite list_lookup_fmap, Hkp; eauto).
    rewrite length_fmap in Hlen.
    pose proof (Forall2_length _ _ _ Hkvs) as Hl.
    apply lookup_lt_Some in Hkp. lia.
  - (* the last position whose row has this id *)
    assert (Hin : id ∈ kvs.*1).
    { apply list_elem_of_lookup. exists q. by rewrite list_lookup_fmap, Hkq. }
    apply list_elem_of_split_r in Hin as (ks1 & ks2 & Hsplit & Hlast).
    apply fmap_app_inv in Hsplit as (kvs1 & kvs2' & -> & Hks2 & ->).
    symmetry in Hks2.
    apply fmap_cons_inv in Hks2 as ([id' lab] & kvs2 & Hid' & -> & ->).
    simpl in Hid'. subst id'.
    assert (Hk : seg_lst !! length kvs1 = Some (default 0%nat (seg_lst !! length kvs1))
                 ∧ (length kvs1 < length seg_lst)%nat).
    { rewrite (Forall2_length _ _ _ Hkvs), length_app. simpl.
      destruct (seg_lst !! length kvs1) eqn:Hs; [split; [done|lia]|].
      apply lookup_ge_None in Hs. rewrite (Forall2_length _ _ _ Hkvs) in Hs.
      rewrite length_app in Hs. simpl in Hs. lia. }
    destruct Hk as [Hk _]. set (ilast := default 0%nat _) in Hk.
    exists (length kvs1), ilast, lab. split; [done|]. split; [|split].
    + destruct (Hat _ _ Hk) as (kv & Hkv & Hf).
      rewrite lookup_app_r, Nat.sub_diag in Hkv by lia. by injection Hkv as <-.
    + intros k' i' Hlt Hk' Hid'.
      destruct (Hat _ _ Hk') as ([id' lab'] & Hkv & Hf).
      apply row_fields_item_id in Hf. rewrite Hid' in Hf. injection Hf as <-.
      apply Hlast. apply list_elem_of_lookup. exists (k' - S (length kvs1))%nat.
      rewrite lookup_app_r in Hkv by lia.
      rewrite lookup_cons_ne_0 in Hkv by lia.
      rewrite list_lookup_fmap.
      replace (pred (k' - length kvs1)) with (k' - S (length kvs1))%nat in Hkv by lia.
      by rewrite Hkv.
    + rewrite fmap_app, fmap_cons.
      apply (dict_get_set_all_last [] (mk <$> kvs1) id _ (mk <$> kvs2)).
      rewrite <-list_fmap_compose.
      by rewrite (list_fmap_ext (fst ∘ mk) fst kvs2) by done.
Qed.

End prepare_json_facts.

(** ** The symbol inventory *)

Section create_symbol_file_facts.
Context `{Platform}.

Lemma symbol_loop_two k1 k2 e1 e2 :
  k1 ≠ k2 →
  foldlM (symbol_body [(k1, e1); (k2, e2)]) ∅ [k1; k2]
  = Ok (∅ ∪ list_to_set (str_chars (str_lower (label e1)))
          ∪ list_to_set (str_chars (str_lower (label e2)))).
Proof.
  intros Hne. simpl. unfold symbol_body at 2, dict_getitem. simpl.
  rewrite decide_True by done. simpl.
  unfold symbol_body, dict_getitem. simpl.
  rewrite decide_False by done. rewrite decide_True by done. done.
Qed.

(** C8.  With the save folder there, no lexicon file in it, and a training
    manifest whose labels are exactly "Hello" and "World",
    [create_symbol_file] writes a lexicon file that holds the seven
    characters h, e, l, o, w, r, d, each once, in some order, with one tab
    character (code 9) between two of them and nothing else. *)
Theorem create_symbol_file_hello_world (save_folder save_json_train : string)
    (w : world) (d : list (string * entry)) :
  folder_there (fs w) save_folder →
  fs w !! os_path_join save_folder "lexicon" = None →
  fs_at (fs w) save_json_train = Some (File (Json d)) →
  NoDup d.*1 →
  label <$> d.*2 ≡ₚ ["Hello"; "World"] →
  ∃ c1 c2 c3 c4 c5 c6 c7 w',
    create_symbol_file save_folder save_json_train w = Ok ((), w')
    ∧ fs w' !! os_path_join save_folder "lexicon"
      = Some (File (Text
          (String c1 (String "009" (String c2 (String "009" (String c3 (String "009"
          (String c4 (String "009" (String c5 (String "009" (String c6 (String "009"
          (String c7 EmptyString)))))))))))))))
    ∧ [c1; c2; c3; c4; c5; c6; c7] ≡ₚ ["h"; "e"; "l"; "o"; "w"; "r"; "d"]%char.
Proof.
  intros Hfolder Hlex Htrain Hnodup Hlabels.
  pose proof (Permutation_length Hlabels) as Hlen.
  rewrite !length_fmap in Hlen.
  destruct d as [|[k1 e1] [|[k2 e2] [|? ?]]]; try done. clear Hlen.
  assert (Hne : k1 ≠ k2).
  { intros ->. csimpl in Hnodup. apply NoDup_cons in Hnodup as [Hnin _].
    apply Hnin. by left. }
  set (cs := ∅ ∪ list_to_set (str_chars (str_lower (label e1)))
               ∪ list_to_set (str_chars (str_lower (label e2))) : gset ascii).
  assert (Hcs : cs = list_to_set ["h"; "e"; "l"; "o"; "w"; "r"; "d"]%char).
  { csimpl in Hlabels. subst cs.
    apply Permutation_length_2 in Hlabels as [[-> ->]|[-> ->]];
      simpl; set_solver. }
  assert (Hperm : set_iter cs ≡ₚ ["h"; "e"; "l"; "o"; "w"; "r"; "d"]%char).
  { rewrite set_iter_perm, Hcs. apply elements_list_to_set.
    apply (bool_decide_unpack _). by vm_compute. }
  pose proof (Permutation_length Hperm) as Hlen.
  destruct (set_iter cs) as [|c1 [|c2 [|c3 [|c4 [|c5 [|c6 [|c7 [|? ?]]]]]]]] eqn:Hiter;
    try done.
  exists c1, c2, c3, c4, c5, c6, c7. eexists. split; [|split; [|done]].
  - unfold create_symbol_file.
    rewrite bind_eq, os_path_exists_eq, fs_at_join, Hlex by done.
    rewrite bool_decide_false by (by intros [? ?]).
    rewrite bind_eq, logger_info_eq.
    rewrite (bind_ok _ _ _ _ _ (load_data_json_ok _ _ (add_event w _) Htrain)).
    rewrite (bind_ok _ _ _ _ _ (lift_ok _ _ _ (symbol_loop_two _ _ _ _ Hne))).
    fold cs. rewrite Hiter. apply write_file_join; [done|done|].
    simpl. by rewrite Hlex.
  - simpl. by rewrite lookup_insert_eq.
Qed.

End create_symbol_file_facts.

(** ** The entry point *)

Section prepare_ljspeech_facts.
Context `{Platform}.

(** C10.  With the skip flag set, [prepare_ljspeech] seeds the random
    generator and returns: the file system is as it was (nothing is
    created or written) and no effect is added to the trace (no file is
    read, no directory made, no command run), whatever the other
    parameters are. *)
Theorem prepare_ljspeech_skip_prep (data_folder save_folder : string)
    (splits : list string) (split_ratio : list Z) (seed : Z)
    (kwargs : gmap string string) (w : world) :
  prepare_ljspeech data_folder save_folder splits split_ratio seed true kwargs w
  = Ok ((), with_rng w (random_seed seed)).
Proof. unfold prepare_ljspeech. by rewrite bind_eq. Qed.

End prepare_ljspeech_facts.

(** ** True division *)

Section truediv_facts.

Lemma quot_log2_spec (A B : Z) :
  0 < A → 0 < B →
  (0 ≤ quot_log2 A B →
     B * 2 ^ quot_log2 A B ≤ A ∧ A < B * 2 ^ (quot_log2 A B + 1))
  ∧ (quot_log2 A B < 0 →
     B ≤ A * 2 ^ (- quot_log2 A B) ∧ A * 2 ^ (- quot_log2 A B) < 2 * B).
Proof.
  intros HA HB. unfold quot_log2.
  destruct (Z.log2_spec A HA) as [HA1 HA2].
  destruct (Z.log2_spec B HB) as [HB1 HB2].
  pose proof (Z.log2_nonneg A) as Hla. pose proof (Z.log2_nonneg B) as Hlb.
  set (la := Z.log2 A) in *. set (lb := Z.log2 B) in *.
  rewrite <-Z.add_1_r in HA2, HB2.
  destruct (Z.leb_spec 0 (la - lb)) as [Hd|Hd].
  - (* la = lb + d *)
    replace la with (lb + (la - lb)) in HA1, HA2 by lia.
    set (d := la - lb) in *.
    rewrite Z.pow_add_r in HA1 by lia.
    rewrite <-Z.add_assoc, Z.pow_add_r in HA2 by lia.
    assert (0 < 2 ^ d) by (apply Z.pow_pos_nonneg; lia).
    assert (0 < 2 ^ lb) by (apply Z.pow_pos_nonneg; lia).
    rewrite Z.pow_add_r, Z.pow_1_r in HB2 by lia.
    destruct (Z.leb_spec (B * 2 ^ d) A) as [Hle|Hgt].
    + split; [intros _|lia]. split; [done|].
      rewrite Z.pow_add_r, Z.pow_1_r by lia.
      rewrite Z.pow_add_r, Z.pow_1_r in HA2 by lia. nia.
    + split.
      * intros Hd1. replace (d - 1 + 1) with d by lia. split; [|done].
        replace d with ((d - 1) + 1) in HA1 by lia.
        rewrite Z.pow_add_r, Z.pow_1_r in HA1 by lia.
        assert (0 < 2 ^ (d - 1)) by (apply Z.pow_pos_nonneg; lia). nia.
      * intros Hd1. assert (d = 0) as Hd0 by lia.
        rewrite Hd0 in *. simpl. rewrite Z.pow_0_r in *. split; nia.
  - replace lb with (la + (lb - la)) in HB1, HB2 by lia.
    set (d := lb - la) in *.
    rewrite Z.pow_add_r in HB1 by lia.
    rewrite <-Z.add_assoc, Z.pow_add_r in HB2 by lia.
    rewrite (Z.pow_add_r 2 d 1), Z.pow_1_r in * by lia.
    rewrite (Z.pow_add_r 2 la 1), Z.pow_1_r in HA2 by lia.
    assert (0 < 2 ^ d) by (apply Z.pow_pos_nonneg; lia).
    assert (0 < 2 ^ la) by (apply Z.pow_pos_nonneg; lia).
    replace (- (la - lb)) with d by lia.
    destruct (Z.leb_spec B (A * 2 ^ d)) as [Hle|Hgt].
    + split; [lia|intros _]. replace (- (la - lb)) with d by lia.
      split; [done|]. nia.
    + split; [lia|intros _]. replace (- (la - lb - 1)) with (d + 1) by lia.
      rewrite Z.pow_add_r, Z.pow_1_r by lia. split; nia.
Qed.

Lemma div_rne_cases (n d : Z) :
  0 < d →
  div_rne n d = n / d ∨ (div_rne n d = n / d + 1 ∧ d ≤ 2 * (n mod d)).
Proof.
  intros Hd. unfold div_rne.
  destruct (Z.ltb_spec (2 * (n mod d)) d); [by left|].
  destruct (Z.ltb_spec d (2 * (n mod d))); [by right|].
  destruct (Z.even (n / d)); [by left|by right].
Qed.

(** Rounding to 53 bits does not carry a quotient below [2 ^ 53] over the
    next integer. *)
Lemma div_rne_trunc (A B P : Z) :
  0 < A < 2 ^ 53 → 0 < B → 0 < P → B * 2 ^ 52 ≤ A * P →
  div_rne (A * P) B / P = A / B.
Proof.
  intros HA HB HP Hnorm.
  pose proof (Z.div_mod A B ltac:(lia)) as HAeq.
  pose proof (Z.mod_pos_bound A B HB) as Hs.
  pose proof (Z.div_mod (A * P) B ltac:(lia)) as HNeq.
  pose proof (Z.mod_pos_bound (A * P) B HB) as Hr.
  pose proof (div_rne_cases (A * P) B HB) as Hcases.
  set (k := A / B) in *. set (s := A mod B) in *.
  set (q := A * P / B) in *. set (r := (A * P) mod B) in *.
  assert (Hk : 0 ≤ k) by (apply Z.div_pos; lia).
  assert (Hq1 : k * P ≤ q) by nia.
  assert (Hq2 : q < (k + 1) * P) by nia.
  change (2 ^ 53) with 9007199254740992 in HA.
  change (2 ^ 52) with 4503599627370496 in Hnorm.
  symmetry. destruct Hcases as [->|[-> Hup]].
  - apply Z.div_unique_pos with (q - k * P); lia.
  - apply Z.div_unique_pos with (q + 1 - k * P); [|lia].
    split; [lia|].
    destruct (decide (q + 1 = (k + 1) * P)) as [Heq|?]; [exfalso|lia].
    (* the quotient would have to be at least [2 ^ 53] *)
    assert (2 * P ≤ B) by nia. nia.
Qed.

(** For a numerator below [2 ^ 53], [int(a / b)] is the floor of the
    quotient. *)
Lemma int_truediv_floor (a b : Z) :
  0 ≤ a < 2 ^ 53 → 0 < b → int_truediv a b = Ok (a / b).
Proof.
  intros Ha Hb. unfold int_truediv, py_truediv.
  destruct (Z.eqb_spec b 0) as [?|_]; [lia|].
  destruct (Z.eqb_spec a 0) as [->|Ha0]; [done|].
  assert (HA : 0 < a < 2 ^ 53) by lia. clear Ha Ha0.
  rewrite (Z.abs_eq a), (Z.abs_eq b) by lia.
  rewrite (Z.sgn_pos a), (Z.sgn_pos b) by lia.
  destruct (quot_log2_spec a b ltac:(lia) Hb) as [Hpos Hneg].
  set (e := quot_log2 a b) in *.
  assert (He : e ≤ 52).
  { destruct (decide (0 ≤ e)) as [He|]; [|lia].
    destruct (Hpos He) as [Hle _].
    destruct (decide (e ≤ 52)) as [|Hbig]; [done|].
    assert (2 ^ 53 ≤ 2 ^ e) by (apply Z.pow_le_mono_r; lia).
    assert (0 < 2 ^ e) by (apply Z.pow_pos_nonneg; lia). nia. }
  destruct (Z.leb_spec 0 (52 - e)) as [_|?]; [|lia].
  destruct (Z.ltb_spec 1023 e) as [?|_]; [lia|].
  destruct (Z.eqb_spec e 1023) as [?|_]; [lia|]. simpl.
  assert (HP : 0 < 2 ^ (52 - e)) by (apply Z.pow_pos_nonneg; lia).
  assert (Hnorm : b * 2 ^ 52 ≤ a * 2 ^ (52 - e)).
  { destruct (decide (0 ≤ e)) as [He0|He0].
    - destruct (Hpos He0) as [Hle _].
      replace 52 with (e + (52 - e)) at 1 by lia.
      rewrite Z.pow_add_r by lia. nia.
    - destruct (Hneg ltac:(lia)) as [Hle _].
      replace (52 - e) with (- e + 52) by lia.
      rewrite Z.pow_add_r by lia.
      assert (0 < 2 ^ 52) by done. nia. }
  pose proof (div_rne_trunc a b _ HA Hb HP Hnorm) as Htr.
  assert (Hm : 0 ≤ div_rne (a * 2 ^ (52 - e)) b).
  { destruct (div_rne_cases (a * 2 ^ (52 - e)) b Hb) as [->|[-> _]];
      assert (0 ≤ a * 2 ^ (52 - e) / b) by (apply Z.div_pos; nia); lia. }
  set (m := div_rne (a * 2 ^ (52 - e)) b) in *.
  unfold fmap, result_fmap, py_int. simpl. f_equal.
  rewrite Z.opp_involutive. replace (1 * 1 * m) with m by lia.
  destruct (Z.leb_spec 0 (- (52 - e))) as [Hz|Hz].
  - replace (52 - e) with 0 in * by lia.
    change (- 0) with 0. rewrite Z.pow_0_r in *. rewrite Z.div_1_r in Htr. lia.
  - by rewrite Z.quot_div_nonneg by lia.
Qed.

End truediv_facts.

(** ** Loops *)

Section loop_facts.
Context {A B : Type}.
Implicit Types (f : A → B → result A) (l : list B).

Lemma foldlM_app f a l1 l2 :
  foldlM f a (l1 ++ l2) = (a' ← foldlM f a l1; foldlM f a' l2).
Proof.
  revert a. induction l1 as [|b l1 IH]; intros a; simpl; [done|].
  destruct (f a b) as [a1|e]; simpl; [apply IH|done].
Qed.

Lemma foldlM_ext f g a l :
  (∀ a b, f a b = g a b) → foldlM f a l = foldlM g a l.
Proof.
  intros Hfg. revert a. induction l as [|b l IH]; intros a; simpl; [done|].
  rewrite Hfg. destruct (g a b); simpl; [apply IH|done].
Qed.

Lemma foldlM_cons_ok f a b l a' :
  foldlM f a (b :: l) = Ok a' → ∃ a1, f a b = Ok a1 ∧ foldlM f a1 l = Ok a'.
Proof. simpl. destruct (f a b) as [a1|e]; [|done]. intros ?. by exists a1. Qed.

(** An invariant that every round keeps holds when the loop is over. *)
Lemma foldlM_inv (I : A → Prop) f a l a' :
  (∀ a b a', b ∈ l → I a → f a b = Ok a' → I a') →
  I a → foldlM f a l = Ok a' → I a'.
Proof.
  revert a. induction l as [|b l IH]; intros a Hstep Ha; simpl.
  - by intros [= <-].
  - destruct (f a b) as [a1|e] eqn:Hf; [|done]. simpl. apply IH.
    + intros a2 b2 a3 Hb2. apply Hstep. by right.
    + eapply Hstep; [|done..]. by left.
Qed.

End loop_facts.

(** An invariant indexed by the round, for a loop over [range(n)]. *)
Lemma foldlM_seq_inv {A : Type} (I : nat → A → Prop) (f : A → nat → result A)
    (j k : nat) (a a' : A) :
  (∀ i a a', (j ≤ i < j + k)%nat → I i a → f a i = Ok a' → I (S i) a') →
  I j a → foldlM f a (seq j k) = Ok a' → I (j + k)%nat a'.
Proof.
  revert j a. induction k as [|k IH]; intros j a Hstep Ha; simpl.
  - intros [= <-]. by rewrite Nat.add_0_r.
  - destruct (f a j) as [a1|e] eqn:Hf; [|done]. simpl.
    replace (j + S k)%nat with (S j + k)%nat by lia. apply IH.
    + intros i a2 a3 Hi. apply Hstep. lia.
    + eapply Hstep; [|done..]. lia.
Qed.

(** ** Grouping rows by session *)

Section group_facts.

Lemma group_body_eq meta_csv st i :
  group_body meta_csv st i
  = (session_id ← session_id_at meta_csv i;
     Ok (group_step (length meta_csv) st i session_id)).
Proof.
  unfold group_body, session_id_at, group_step.
  destruct (py_index meta_csv i) as [row|]; [|done]. simpl.
  destruct (py_index row 0) as [item_id|]; [|done]. simpl.
  destruct (py_index (str_split "-" item_id) 0) as [sid|]; [|done]. simpl.
  by repeat case_decide.
Qed.

Lemma group_step_inv n i st sid :
  (i < n)%nat → group_inv n i st → group_inv n (S i) (group_step n st i sid).
Proof.
  intros Hi [Hopen _]. specialize (Hopen Hi). unfold group_step.
  destruct (decide (sid = gs_session_id_start st)) as [_|_];
    [destruct (decide (i = n - 1)%nat) as [Hlast|Hlast]|]; split;
    cbn [gs_index_for_sessions gs_index_this_session].
  - lia.
  - intros _. exists (S i). split; [lia|].
    rewrite concat_app, seq_S, <-Hopen. cbn [concat].
    by rewrite app_nil_r, app_assoc.
  - intros _. by rewrite seq_S, <-Hopen, app_assoc.
  - lia.
  - intros _. rewrite concat_app, seq_S, <-Hopen. cbn [concat].
    by rewrite app_nil_r.
  - intros _. exists i. split; [lia|].
    rewrite concat_app. cbn [concat]. by rewrite app_nil_r.
Qed.

Lemma group_sessions_concat meta_csv groups :
  group_sessions meta_csv = Ok groups →
  ∃ m, (m ≤ length meta_csv)%nat ∧ concat groups = seq 0 m.
Proof.
  unfold group_sessions.
  destruct (foldlM _ group_init _) as [st|e] eqn:Hloop; [|done].
  simpl. intros [= <-].
  apply (foldlM_seq_inv (group_inv (length meta_csv))) in Hloop.
  - by apply Hloop.
  - intros i a a' Hi Ha. rewrite group_body_eq.
    destruct (session_id_at meta_csv i) as [sid|]; [|done]. simpl.
    intros [= <-]. apply group_step_inv; [lia|done].
  - split; [done|]. intros <-. by exists 0%nat.
Qed.

(** The groups are made of row indices, each at most once. *)
Lemma group_sessions_bound meta_csv groups x :
  group_sessions meta_csv = Ok groups →
  x ∈ concat groups → (x < length meta_csv)%nat.
Proof.
  intros (m & Hm & ->)%group_sessions_concat Hx.
  apply elem_of_seq in Hx. lia.
Qed.

Lemma group_sessions_NoDup meta_csv groups :
  group_sessions meta_csv = Ok groups → NoDup (concat groups).
Proof. intros (m & _ & ->)%group_sessions_concat. apply NoDup_seq. Qed.

Lemma group_loop_ids meta_csv (ids : list string) j st :
  Forall2 (λ i sid, session_id_at meta_csv i = Ok sid) (seq j (length ids)) ids →
  foldlM (group_body meta_csv) st (seq j (length ids))
  = Ok (foldl (λ st it, group_step (length meta_csv) st it.1 it.2) st
          (zip (seq j (length ids)) ids)).
Proof.
  revert j st. induction ids as [|sid ids IH]; intros j st Hids; simpl; [done|].
  simpl in Hids. apply Forall2_cons in Hids as [Hsid Hids].
  rewrite group_body_eq, Hsid. simpl. by apply IH.
Qed.

Lemma runs_from_nonempty (i : nat) (prev : string) (cur : list nat)
    (ids : list string) :
  runs_from i prev cur ids ≠ [].
Proof.
  revert i prev cur. induction ids as [|sid ids IH]; intros i prev cur; simpl; [done|].
  destruct (decide (sid = prev)); [apply IH|done].
Qed.

Lemma but_last_cons {A : Type} (x : A) (l : list A) :
  l ≠ [] → but_last (x :: l) = x :: but_last l.
Proof. destruct l as [|y l]; [done|]. intros _. unfold but_last. simpl. by rewrite Nat.sub_0_r. Qed.

(** The grouping loop against the maximal runs: from any state, the groups
    it ends with are the closed ones followed by the runs of the rows to
    come, without the last run when the last row opens a session. *)
Lemma group_fold_runs (n i : nat) (st : group_state) (ids : list string) :
  ids ≠ [] → (i + length ids = n)%nat →
  gs_index_for_sessions
    (foldl (λ st it, group_step n st it.1 it.2) st (zip (seq i (length ids)) ids))
  = gs_index_for_sessions st
    ++ (if last_continues (gs_session_id_start st) ids
        then runs_from i (gs_session_id_start st) (gs_index_this_session st) ids
        else but_last
               (runs_from i (gs_session_id_start st) (gs_index_this_session st) ids)).
Proof.
  revert i st. induction ids as [|sid [|sid2 ids] IH]; intros i st Hids Hn; [done| |].
  - (* the last row *)
    simpl in *. unfold group_step.
    destruct (decide (sid = gs_session_id_start st)) as [Heq|Hneq].
    + rewrite bool_decide_true by done.
      rewrite decide_True by lia. done.
    + rewrite bool_decide_false by done. done.
  - (* a row before the last *)
    change (zip (seq i (length (sid :: sid2 :: ids))) (sid :: sid2 :: ids))
      with ((i, sid) :: zip (seq (S i) (length (sid2 :: ids))) (sid2 :: ids)).
    cbn [foldl fst snd]. rewrite IH by (simpl in *; done || lia).
    change (last_continues (gs_session_id_start st) (sid :: sid2 :: ids))
      with (last_continues sid (sid2 :: ids)).
    change (runs_from i (gs_session_id_start st) (gs_index_this_session st)
              (sid :: sid2 :: ids))
      with (if decide (sid = gs_session_id_start st)
            then runs_from (S i) (gs_session_id_start st)
                   (gs_index_this_session st ++ [i]) (sid2 :: ids)
            else gs_index_this_session st :: runs_from (S i) sid [i] (sid2 :: ids)).
    unfold group_step.
    destruct (decide (sid = gs_session_id_start st)) as [->|Hneq].
    + rewrite decide_False by (simpl in Hn; lia). done.
    + cbn [gs_index_for_sessions gs_session_id_start gs_index_this_session].
      rewrite <-app_assoc. cbn [app].
      destruct (last_continues sid (sid2 :: ids)); [done|].
      by rewrite but_last_cons by apply runs_from_nonempty.
Qed.

(** The groups of a catalog against its maximal runs: an empty group comes
    first unless the first session is LJ001, and the last run is left out
    when the last row is a session of its own. *)
Lemma group_ids_runs (ids : list string) (sid : string) (ids' : list string) :
  ids = sid :: ids' →
  group_ids ids
  = (if decide (sid = "LJ001") then [] else [[]])
    ++ (if last_continues "LJ001" ids then session_runs ids
        else but_last (session_runs ids)).
Proof.
  intros ->. unfold group_ids, enumerate.
  rewrite (group_fold_runs _ 0) by done.
  cbn [group_init gs_index_for_sessions gs_session_id_start gs_index_this_session
       runs_from session_runs app].
  destruct (decide (sid = "LJ001")) as [->|Hne]; [done|].
  destruct ids' as [|sid2 ids'].
  - simpl. by rewrite bool_decide_false.
  - change (last_continues "LJ001" (sid :: sid2 :: ids'))
      with (last_continues sid (sid2 :: ids')).
    destruct (last_continues sid (sid2 :: ids')) eqn:Hlast; [done|].
    by rewrite but_last_cons by apply runs_from_nonempty.
Qed.

Lemma group_sessions_ids meta_csv ids :
  Forall2 (λ row sid, ∃ item_id, row !! 0%nat = Some item_id
                        ∧ str_split "-" item_id !! 0%nat = Some sid) meta_csv ids →
  group_sessions meta_csv = Ok (group_ids ids).
Proof.
  intros Hrows. pose proof (Forall2_length _ _ _ Hrows) as Hlen.
  unfold group_sessions, group_ids, enumerate. rewrite Hlen.
  rewrite (group_loop_ids meta_csv ids); [by rewrite Hlen|].
  apply Forall2_same_length_lookup. split; [by rewrite length_seq|].
  intros i k sid Hk Hsid. apply lookup_seq in Hk as [-> Hi]. simpl.
  destruct (Forall2_lookup_r _ _ _ _ _ Hrows Hsid) as (row & Hrow & item_id & H0 & Hs).
  unfold session_id_at, py_index. by rewrite Hrow; simpl; rewrite H0; simpl; rewrite Hs.
Qed.

End group_facts.

(** ** Allocating the groups to the splits *)

Section slice_facts.
Context {A : Type}.
Implicit Types (l : list A) (ls : list (list A)) (ns : list Z).

Lemma py_slice0_del0 l n : py_slice0 l n ++ py_del0 l n = l.
Proof. apply take_drop. Qed.

Lemma slice_stop_le len n : (slice_stop len n ≤ len)%nat.
Proof. unfold slice_stop. destruct (Z.ltb_spec n 0); lia. Qed.

Lemma slice_stop_nonneg len n :
  0 ≤ n ≤ Z.of_nat len → slice_stop len n = Z.to_nat n.
Proof. intros Hn. unfold slice_stop. destruct (Z.ltb_spec n 0); lia. Qed.

Lemma length_py_slice0 l n : length (py_slice0 l n) = slice_stop (length l) n.
Proof.
  unfold py_slice0. rewrite length_take. pose proof (slice_stop_le (length l) n). lia.
Qed.

Lemma length_py_del0 l n :
  length (py_del0 l n) = (length l - slice_stop (length l) n)%nat.
Proof. unfold py_del0. by rewrite length_drop. Qed.

Lemma py_slice0_subseteq l n x : x ∈ py_slice0 l n → x ∈ l.
Proof. unfold py_slice0. apply subseteq_take. Qed.

Lemma py_del0_subseteq l n x : x ∈ py_del0 l n → x ∈ l.
Proof. unfold py_del0. apply subseteq_drop. Qed.

(** Cutting every list in two loses nothing. *)
Lemma concat_slice_del ls ns :
  length ls = length ns →
  concat (zip_with py_slice0 ls ns) ++ concat (zip_with py_del0 ls ns) ≡ₚ concat ls.
Proof.
  revert ns. induction ls as [|l ls IH]; intros [|n ns] Hlen; simplify_eq/=; [done|].
  rewrite <-(IH ns) by done. rewrite <-(py_slice0_del0 l n) at 3.
  rewrite <-!app_assoc. f_equiv. rewrite !app_assoc. f_equiv.
  apply Permutation_app_comm.
Qed.

Lemma elem_of_concat ls (x : A) : x ∈ concat ls ↔ ∃ l, l ∈ ls ∧ x ∈ l.
Proof.
  induction ls as [|l0 ls IH]; simpl.
  - split; [by intros ?%elem_of_nil|by intros (? & ?%elem_of_nil & _)].
  - rewrite elem_of_app, IH. split.
    + intros [?|(l & ? & ?)]; [exists l0|exists l]; split; try done; by constructor.
    + intros (l & [->|?]%elem_of_cons & ?); [by left|right; by exists l].
Qed.

Lemma concat_Forall2_perm (ls ks : list (list A)) :
  Forall2 (≡ₚ) ls ks → concat ls ≡ₚ concat ks.
Proof. induction 1 as [|l k ls ks Hlk _ IH]; simpl; [done|]. by rewrite Hlk, IH. Qed.

End slice_facts.

Section split_facts.
Context `{Platform}.
Implicit Types (st : split_state) (splits : list string) (session_len : list nat)
  (split_ratio : list Z).

Lemma split_body_kind splits session_len split_ratio i split st j :
  split_body splits session_len split_ratio i split st j =
  match kind_of splits split with
  | Take => take_step session_len split_ratio i split j st
  | Keep => keep_step split j st
  | Idle => Ok st
  end.
Proof.
  unfold split_body, kind_of.
  destruct (decide (split = "train")) as [->|?].
  - by destruct (take_step _ _ _ _ _ _) as [st1|].
  - simpl. destruct (decide (split = "valid")) as [->|?].
    + destruct (decide ("test" ∈ splits)).
      * by destruct (take_step _ _ _ _ _ _) as [st1|].
      * by destruct (keep_step _ _ _) as [st1|].
    + simpl. by destruct (decide (split = "test")).
Qed.

(** The inner loop of a [Take] round, over groups [j], ..., [j + k - 1]:
    each is shuffled, cut at its [n_snts], the front goes to the split and
    the back stays. *)
Lemma take_loop splits session_len split_ratio i split k :
  kind_of splits split = Take →
  ∀ j st st' cur,
    foldlM (split_body splits session_len split_ratio i split) st (seq j k) = Ok st' →
    (j + k ≤ length (index_for_sessions st))%nat →
    data_split st !! split = Some cur →
    ∃ shs ns,
      Forall2 (≡ₚ) shs (take k (drop j (index_for_sessions st)))
      ∧ Forall2 (λ j' n, n_snts_of session_len split_ratio i j' = Ok n) (seq j k) ns
      ∧ index_for_sessions st'
        = take j (index_for_sessions st) ++ zip_with py_del0 shs ns
            ++ drop (j + k) (index_for_sessions st)
      ∧ data_split st'
        = <[split := cur ++ concat (zip_with py_slice0 shs ns)]> (data_split st).
Proof.
  intros Hkind. induction k as [|k IH]; intros j st st' cur Hloop Hlen Hcur.
  - simpl in Hloop. injection Hloop as <-. exists [], []. simpl.
    rewrite Nat.add_0_r, take_drop, app_nil_r. repeat split; [constructor..|].
    by rewrite insert_id.
  - apply foldlM_cons_ok in Hloop as (st1 & Hstep & Hloop).
    rewrite split_body_kind, Hkind in Hstep. unfold take_step, py_index in Hstep.
    destruct (index_for_sessions st !! j) as [pool|] eqn:Hpool;
      [|apply lookup_ge_None in Hpool; lia].
    simpl in Hstep.
    destruct (n_snts_of session_len split_ratio i j) as [n|] eqn:Hn; [|done].
    simpl in Hstep. unfold py_getitem in Hstep. rewrite Hcur in Hstep.
    simpl in Hstep. injection Hstep as <-.
    set (sh := (random_shuffle (rng_now st) pool).1) in *.
    apply (IH (S j) _ _ (cur ++ py_slice0 sh n)) in Hloop as
      (shs & ns & Hshs & Hns & Hpools & Hds);
      [|simpl; rewrite length_insert; lia|simpl; by rewrite lookup_insert_eq].
    simpl in Hshs, Hpools, Hds.
    exists (sh :: shs), (n :: ns). split; [|split; [|split]].
    + rewrite (drop_S _ _ _ Hpool). simpl. constructor; [apply random_shuffle_perm|].
      by rewrite drop_insert_lt in Hshs by lia.
    + simpl. by constructor.
    + rewrite Hpools. rewrite drop_insert_lt by lia.
      rewrite take_insert_lt by lia.
      rewrite (take_S_r _ _ pool) by done.
      rewrite insert_app_r_alt by (rewrite length_take; lia).
      rewrite length_take_le by lia.
      replace (j - j)%nat with 0%nat by lia. simpl.
      rewrite <-!app_assoc. simpl.
      by replace (S (j + k))%nat with (j + S k)%nat by lia.
    + rewrite Hds, insert_insert_eq. simpl. by rewrite app_assoc.
Qed.

(** The inner loop of a [Keep] round copies the groups as they are. *)
Lemma keep_loop splits session_len split_ratio i split k :
  kind_of splits split = Keep →
  ∀ j st st' cur,
    foldlM (split_body splits session_len split_ratio i split) st (seq j k) = Ok st' →
    (j + k ≤ length (index_for_sessions st))%nat →
    data_split st !! split = Some cur →
    st' = {| index_for_sessions := index_for_sessions st;
             data_split :=
               <[split := cur ++ concat (take k (drop j (index_for_sessions st)))]>
                 (data_split st);
             rng_now := rng_now st |}.
Proof.
  intros Hkind. induction k as [|k IH]; intros j st st' cur Hloop Hlen Hcur.
  - simpl in Hloop. injection Hloop as <-. simpl. rewrite app_nil_r, insert_id by done.
    by destruct st.
  - apply foldlM_cons_ok in Hloop as (st1 & Hstep & Hloop).
    rewrite split_body_kind, Hkind in Hstep. unfold keep_step, py_index in Hstep.
    destruct (index_for_sessions st !! j) as [pool|] eqn:Hpool;
      [|apply lookup_ge_None in Hpool; lia].
    simpl in Hstep. unfold py_getitem in Hstep. rewrite Hcur in Hstep.
    simpl in Hstep. injection Hstep as <-.
    apply (IH (S j) _ _ (cur ++ pool)) in Hloop;
      [|simpl; lia|simpl; by rewrite lookup_insert_eq].
    simpl in Hloop. rewrite Hloop. rewrite insert_insert_eq.
    rewrite (drop_S _ _ _ Hpool). simpl. by rewrite app_assoc.
Qed.

Lemma idle_loop splits session_len split_ratio i split (js : list nat) st :
  kind_of splits split = Idle →
  foldlM (split_body splits session_len split_ratio i split) st js = Ok st.
Proof.
  intros Hkind. induction js as [|j js IH]; simpl; [done|].
  by rewrite split_body_kind, Hkind.
Qed.

Lemma split_pass_spec splits session_len split_ratio st i split st' :
  split_pass splits session_len split_ratio st (i, split) = Ok st' →
  pass_spec (kind_of splits split) session_len split_ratio i split st st'.
Proof.
  unfold split_pass. cbn [fst snd index_for_sessions].
  set (st0 := {| index_for_sessions := index_for_sessions st;
                 data_split := <[split := []]> (data_split st);
                 rng_now := rng_now st |}).
  intros Hloop. destruct (kind_of splits split) eqn:Hkind; simpl.
  - eapply (take_loop _ _ _ _ _ _ Hkind 0%nat st0 st' []) in Hloop as
      (shs & ns & Hshs & Hns & Hpools & Hds);
      [|simpl; lia|simpl; by rewrite lookup_insert_eq].
    simpl in Hshs, Hns, Hpools, Hds. rewrite take_ge in Hshs by done.
    rewrite drop_all, app_nil_r in Hpools. rewrite insert_insert_eq in Hds.
    by exists shs, ns.
  - eapply (keep_loop _ _ _ _ _ _ Hkind 0%nat st0 st' []) in Hloop;
      [|simpl; lia|simpl; by rewrite lookup_insert_eq].
    subst st'. simpl. by rewrite take_ge, insert_insert_eq.
  - rewrite idle_loop in Hloop by done. by injection Hloop as <-.
Qed.

Lemma pass_spec_length kind session_len split_ratio i split st st' :
  pass_spec kind session_len split_ratio i split st st' →
  length (index_for_sessions st') = length (index_for_sessions st).
Proof.
  destruct kind; simpl.
  - intros (shs & ns & Hshs & Hns & -> & _).
    apply Forall2_length in Hshs, Hns. rewrite length_seq in Hns.
    rewrite length_zip_with. lia.
  - by intros (-> & _).
  - by intros (-> & _).
Qed.

(** A [Take] round moves indices from the groups to the split: none is
    lost and none appears. *)
Lemma pass_spec_take_perm session_len split_ratio i split st st' :
  pass_spec Take session_len split_ratio i split st st' →
  ∃ taken, data_split st' = <[split := taken]> (data_split st)
         ∧ taken ++ concat (index_for_sessions st') ≡ₚ concat (index_for_sessions st).
Proof.
  intros (shs & ns & Hshs & Hns & -> & ->). eexists. split; [done|].
  rewrite concat_slice_del.
  - by apply concat_Forall2_perm.
  - apply Forall2_length in Hshs, Hns. rewrite length_seq in Hns. lia.
Qed.

End split_facts.

(** ** The outer loop *)

Lemma enumerate_snoc {A : Type} (l : list A) (x : A) :
  enumerate (l ++ [x]) = enumerate l ++ [(length l, x)].
Proof.
  unfold enumerate. rewrite length_app. simpl. rewrite seq_app. simpl.
  rewrite zip_with_app by (by rewrite length_seq). done.
Qed.

(** An invariant indexed by the position in the list, for a loop over
    [enumerate(l)]. *)
Lemma foldlM_enumerate_inv {A B : Type} (I : nat → A → Prop)
    (f : A → nat * B → result A) (l : list B) (a a' : A) :
  (∀ i x a a', l !! i = Some x → I i a → f a (i, x) = Ok a' → I (S i) a') →
  I 0%nat a → foldlM f a (enumerate l) = Ok a' → I (length l) a'.
Proof.
  revert a'. induction l as [|x l IH] using rev_ind; intros a' Hstep Ha.
  - by intros [= <-].
  - rewrite enumerate_snoc, foldlM_app.
    destruct (foldlM f a (enumerate l)) as [a1|e] eqn:Hl; [|done]. simpl.
    destruct (f a1 (length l, x)) as [a2|e] eqn:Hx; [|done]. simpl.
    intros [= <-]. rewrite length_app. simpl.
    replace (length l + 1)%nat with (S (length l)) by lia.
    apply (Hstep (length l) x a1); [|apply IH|]; try done.
    + by rewrite lookup_app_r, Nat.sub_diag.
    + intros i y b b' Hi. apply Hstep. by apply lookup_app_l_Some.
Qed.

Section split_sets_facts.
Context `{Platform}.

Lemma split_sets_inv data_folder splits split_ratio w ds rows w' :
  split_sets data_folder splits split_ratio w = Ok ((ds, rows), w') →
  ∃ text groups st,
    fs w !! os_path_join data_folder METADATA_CSV = Some (File (Text text))
    ∧ rows = csv_reader text
    ∧ group_sessions rows = Ok groups
    ∧ split_loop splits split_ratio groups (rng w) = Ok st
    ∧ ds = data_split st
    ∧ w' = with_rng (add_event w (EvRead (os_path_join data_folder METADATA_CSV)))
                    (rng_now st).
Proof.
  unfold split_sets. set (path := os_path_join data_folder METADATA_CSV).
  intros (c & w1 & [Hf ->]%read_file_inv & Hrest)%bind_inv.
  unfold path in Hf. rewrite fs_at_join in Hf by done. fold path in Hf.
  destruct c as [text|d|o]; try done. revert Hrest. unfold_M.
  destruct (group_sessions (csv_reader text)) as [groups|] eqn:Hg; [|done].
  cbn [rng fs trace].
  destruct (split_loop splits split_ratio groups (rng w)) as [st|] eqn:Hst; [|done].
  intros [= <- <- <-]. by exists text, groups, st.
Qed.

Lemma split_sets_ok data_folder splits split_ratio w text groups st :
  fs w !! os_path_join data_folder METADATA_CSV = Some (File (Text text)) →
  group_sessions (csv_reader text) = Ok groups →
  split_loop splits split_ratio groups (rng w) = Ok st →
  split_sets data_folder splits split_ratio w
  = Ok ((data_split st, csv_reader text),
        with_rng (add_event w (EvRead (os_path_join data_folder METADATA_CSV)))
                 (rng_now st)).
Proof.
  intros Hf Hg Hst. unfold split_sets. rewrite <-fs_at_join in Hf by done.
  rewrite (bind_ok _ _ _ _ _ (read_file_ok _ _ _ Hf)).
  rewrite bind_eq. unfold mret, M_ret. rewrite bind_eq. unfold lift.
  rewrite Hg. rewrite bind_eq. unfold get_rng. rewrite bind_eq. simpl.
  by rewrite Hst.
Qed.

(** *** Every index handed out is a row index *)

Lemma pass_spec_bounded n kind session_len split_ratio i split st st' :
  pass_spec kind session_len split_ratio i split st st' →
  bounded n st → bounded n st'.
Proof.
  intros Hpass [Hpools Hds]. destruct kind.
  - apply pass_spec_take_perm in Hpass as (taken & Hds' & Hperm).
    assert (Hall : ∀ x, x ∈ taken ++ concat (index_for_sessions st') → (x < n)%nat).
    { intros x Hx. rewrite Hperm in Hx. by apply Hpools. }
    split.
    + intros x Hx. apply Hall, elem_of_app. by right.
    + intros s l x. rewrite Hds', lookup_insert. case_decide.
      * intros [= <-] Hx. apply Hall, elem_of_app. by left.
      * apply Hds.
  - destruct Hpass as (Hp & Hd & _). split; [by rewrite Hp|].
    intros s l x. rewrite Hd, lookup_insert. case_decide.
    + intros [= <-]. apply Hpools.
    + apply Hds.
  - destruct Hpass as (Hp & Hd & _). split; [by rewrite Hp|].
    intros s l x. rewrite Hd, lookup_insert. case_decide.
    + intros [= <-] Hx. by apply elem_of_nil in Hx.
    + apply Hds.
Qed.

Lemma split_loop_bounded n splits split_ratio groups g st :
  (∀ x, x ∈ concat groups → (x < n)%nat) →
  split_loop splits split_ratio groups g = Ok st → bounded n st.
Proof.
  intros Hgroups Hloop. unfold split_loop in Hloop.
  eapply (foldlM_inv (bounded n)); [| |exact Hloop].
  - intros st1 [i split] st2 _ Hst1 Hpass. apply split_pass_spec in Hpass.
    by eapply pass_spec_bounded.
  - split; [done|]. intros s l x Hs. simpl in Hs. by rewrite lookup_empty in Hs.
Qed.

End split_sets_facts.

(** *** Splits listed in order do not overlap *)

(** The splits lists that keep the order train, valid, test. *)
Lemma sublist_cases (splits : list string) :
  sublist splits ["train"; "valid"; "test"] →
  splits ∈ [ []; ["test"]; ["valid"]; ["valid"; "test"];
             ["train"]; ["train"; "test"]; ["train"; "valid"];
             ["train"; "valid"; "test"] ].
Proof.
  intros Hsub.
  repeat match goal with
         | H : sublist _ (_ :: _) |- _ => inversion H; clear H; simplify_eq
         | H : sublist _ [] |- _ => apply sublist_nil_r in H; subst
         end; set_solver.
Qed.

Lemma sublist_orderly splits :
  sublist splits ["train"; "valid"; "test"] → orderly splits.
Proof.
  intros Hcases%sublist_cases.
  repeat (apply elem_of_cons in Hcases as [->|Hcases];
          [by apply (bool_decide_unpack _); vm_compute|]).
  by apply elem_of_nil in Hcases.
Qed.

Section disjoint_facts.
Context `{Platform}.
Implicit Types (st : split_state) (allocs : list (string * list nat)).

Lemma pass_spec_settled all keys kind session_len split_ratio i split st st' :
  kind ≠ Keep →
  pass_spec kind session_len split_ratio i split st st' →
  settled all keys st → settled all (split :: keys) st'.
Proof.
  intros Hkind Hpass (allocs & Hds & Hkeys & Hperm). destruct kind; [|done|].
  - apply pass_spec_take_perm in Hpass as (taken & Hds' & Hperm').
    exists ((split, taken) :: allocs). split; [|split].
    + by rewrite Hds', Hds.
    + csimpl. by rewrite Hkeys.
    + csimpl. rewrite <-Hperm, <-Hperm'.
      rewrite !app_assoc. f_equiv. apply Permutation_app_comm.
  - destruct Hpass as (Hp & Hd & _).
    exists ((split, []) :: allocs). split; [|split].
    + by rewrite Hd, Hds.
    + csimpl. by rewrite Hkeys.
    + csimpl. by rewrite Hp.
Qed.

(** After the last round the splits hold each index at most once. *)
Lemma pass_spec_final all keys kind session_len split_ratio i split st st' :
  pass_spec kind session_len split_ratio i split st st' →
  NoDup all → settled all keys st →
  ∃ allocs, data_split st' = list_to_map allocs
          ∧ allocs.*1 = split :: keys
          ∧ NoDup (concat allocs.*2).
Proof.
  intros Hpass Hall Hst. destruct (decide (kind = Keep)) as [->|Hkind].
  - destruct Hst as (allocs & Hds & Hkeys & Hperm).
    destruct Hpass as (Hp & Hd & _).
    exists ((split, concat (index_for_sessions st)) :: allocs). split; [|split].
    + by rewrite Hd, Hds.
    + csimpl. by rewrite Hkeys.
    + csimpl. rewrite Permutation_app_comm. by rewrite Hperm.
  - destruct (pass_spec_settled _ _ _ _ _ _ _ _ _ Hkind Hpass Hst)
      as (allocs & Hds & Hkeys & Hperm).
    exists allocs. split; [done|]. split; [done|].
    rewrite <-Hperm in Hall. by apply NoDup_app in Hall as [? _].
Qed.

Lemma front_settled all splits session_len split_ratio (front : list string) :
  ∀ st st',
    foldlM (split_pass splits session_len split_ratio) st (enumerate front) = Ok st' →
    Forall (λ s, kind_of splits s ≠ Keep) front →
    settled all [] st → settled all (reverse front) st'.
Proof.
  induction front as [|s front IH] using rev_ind; intros st st' Hloop Hfront Hst.
  - by injection Hloop as <-.
  - rewrite enumerate_snoc, foldlM_app in Hloop.
    destruct (foldlM _ st (enumerate front)) as [st1|] eqn:Hl; [|done].
    simpl in Hloop.
    destruct (split_pass _ _ _ st1 _) as [st2|] eqn:Hp; [|done].
    injection Hloop as <-. apply Forall_app in Hfront as [Hfront Hs].
    rewrite Forall_singleton in Hs. rewrite reverse_snoc.
    apply split_pass_spec in Hp. eapply pass_spec_settled; [done..|].
    by eapply IH.
Qed.

Lemma allocs_disjoint allocs s1 s2 l1 l2 x :
  NoDup allocs.*1 → NoDup (concat allocs.*2) → s1 ≠ s2 →
  (s1, l1) ∈ allocs → (s2, l2) ∈ allocs → x ∈ l1 → x ∈ l2 → False.
Proof.
  intros Hkeys Hvals Hne.
  induction allocs as [|[s l] allocs IH]; [by intros ?%elem_of_nil|].
  csimpl in *. apply NoDup_cons in Hkeys as [Hs Hkeys].
  apply NoDup_app in Hvals as (Hl & Hdisj & Hrest).
  assert (Hin : ∀ s' l', (s', l') ∈ allocs → x ∈ l' → x ∈ concat allocs.*2).
  { intros s' l' Hin Hx. apply elem_of_concat. exists l'. split; [|done].
    apply list_elem_of_fmap. by exists (s', l'). }
  intros [[= -> ->]|H1]%elem_of_cons [[= -> ->]|H2]%elem_of_cons Hx1 Hx2.
  - done.
  - eapply Hdisj; [done|]. by eapply Hin.
  - eapply Hdisj; [done|]. by eapply Hin.
  - by apply IH.
Qed.

Lemma split_loop_disjoint splits split_ratio groups g st s1 s2 l1 l2 x :
  orderly splits → NoDup (concat groups) →
  split_loop splits split_ratio groups g = Ok st →
  s1 ≠ s2 → data_split st !! s1 = Some l1 → data_split st !! s2 = Some l2 →
  x ∈ l1 → x ∈ l2 → False.
Proof.
  intros [Hnodup Hfront] Hall Hloop Hne H1 H2.
  unfold split_loop in Hloop.
  destruct splits as [|s0 splits0] using rev_ind.
  { injection Hloop as <-. simpl in H1. by rewrite lookup_empty in H1. }
  clear IHsplits0.
  rewrite length_app in Hfront. simpl in Hfront.
  replace (length splits0 + 1 - 1)%nat with (length splits0) in Hfront by lia.
  rewrite take_app_length in Hfront.
  rewrite enumerate_snoc, foldlM_app in Hloop.
  destruct (foldlM _ _ (enumerate splits0)) as [st1|] eqn:Hl; [|done].
  simpl in Hloop.
  destruct (split_pass _ _ _ st1 _) as [st2|] eqn:Hp; [|done].
  injection Hloop as ->.
  eapply (front_settled (concat groups)) in Hl; [|done|].
  2:{ by exists []. }
  apply split_pass_spec in Hp.
  destruct (pass_spec_final _ _ _ _ _ _ _ _ _ Hp Hall Hl)
    as (allocs & Hds & Hkeys & Hvals).
  assert (Hk : NoDup allocs.*1).
  { rewrite Hkeys, <-reverse_snoc. by rewrite reverse_Permutation. }
  rewrite Hds in H1, H2.
  apply elem_of_list_to_map in H1; [|done]. apply elem_of_list_to_map in H2; [|done].
  by eapply allocs_disjoint.
Qed.

(** C1 (amended).  Every index list that [split_sets] returns holds row
    indices of the catalog only, whatever the splits and ratios; and when
    the splits are listed in the order train, valid, test (any of them may
    be left out), the lists of two different splits share no index. *)
Theorem split_sets_disjoint_in_order (data_folder : string) (splits : list string)
    (split_ratio : list Z) (w w' : world) (ds : gmap string (list nat))
    (rows : list (list string)) :
  split_sets data_folder splits split_ratio w = Ok ((ds, rows), w') →
  (∀ s l x, ds !! s = Some l → x ∈ l → (x < length rows)%nat)
  ∧ (sublist splits ["train"; "valid"; "test"] →
     ∀ s1 s2 l1 l2 x, s1 ≠ s2 → ds !! s1 = Some l1 → ds !! s2 = Some l2 →
                      x ∈ l1 → x ∈ l2 → False).
Proof.
  intros (text & groups & st & _ & -> & Hg & Hloop & -> & _)%split_sets_inv. split.
  - apply (split_loop_bounded (length (csv_reader text))) in Hloop as [_ Hds];
      [done|].
    intros x. by apply group_sessions_bound.
  - intros Hsub s1 s2 l1 l2 x. eapply split_loop_disjoint; [|by eapply group_sessions_NoDup|done].
    by apply sublist_orderly.
Qed.

End disjoint_facts.

(** *** How many indices of a group go to train *)

Section count_facts.

Lemma py_sum_nonneg (l : list Z) : Forall (λ r, 0 ≤ r) l → 0 ≤ py_sum l.
Proof. induction 1; simpl; lia. Qed.

Lemma py_sum_elem_le (l : list Z) (i : nat) (r : Z) :
  Forall (λ r, 0 ≤ r) l → l !! i = Some r → r ≤ py_sum l.
Proof.
  intros Hl. revert i. induction Hl as [|r0 l Hr0 Hl IH]; intros [|i] Hi;
    simplify_eq/=.
  - pose proof (py_sum_nonneg l Hl). lia.
  - specialize (IH _ Hi). lia.
Qed.

Lemma py_sum_drop_S (l : list Z) (i : nat) (r : Z) :
  l !! i = Some r → py_sum (drop i l) = r + py_sum (drop (S i) l).
Proof. intros Hi. by rewrite (drop_S _ _ _ Hi). Qed.

Lemma py_sum_drop_le (l : list Z) (i : nat) :
  Forall (λ r, 0 ≤ r) l → py_sum (drop (S i) l) ≤ py_sum (drop i l).
Proof.
  intros Hl. destruct (l !! i) as [r|] eqn:Hi.
  - rewrite (py_sum_drop_S _ _ _ Hi).
    assert (0 ≤ r) by (by eapply (Forall_lookup_1 _ l)). lia.
  - apply lookup_ge_None in Hi. rewrite !drop_ge by lia. done.
Qed.

(** With non-negative ratios and a numerator below [2 ^ 53], [n_snts] is
    the floor of the group's share. *)
Lemma n_snts_of_floor (session_len : list nat) (split_ratio : list Z)
    (i j len : nat) (n : Z) :
  Forall (λ r, 0 ≤ r) split_ratio → 0 < py_sum split_ratio →
  session_len !! j = Some len →
  Z.of_nat len * py_sum split_ratio < 2 ^ 53 →
  n_snts_of session_len split_ratio i j = Ok n →
  ∃ r, split_ratio !! i = Some r ∧ 0 ≤ r
     ∧ n = Z.of_nat len * r / py_sum split_ratio.
Proof.
  intros Hnn Hsum Hlen Hbound. unfold n_snts_of, py_index. rewrite Hlen. simpl.
  destruct (split_ratio !! i) as [r|] eqn:Hr; [|done]. simpl.
  assert (0 ≤ r) by (by eapply (Forall_lookup_1 _ split_ratio)).
  pose proof (py_sum_elem_le _ _ _ Hnn Hr).
  rewrite int_truediv_floor; [|split; nia|done].
  intros [= <-]. by exists r.
Qed.

Lemma filter_all {A : Type} (P : A → Prop) `{∀ x, Decision (P x)} (l : list A) :
  (∀ x, x ∈ l → P x) → filter P l = l.
Proof.
  induction l as [|x l IH]; intros Hl; [done|].
  rewrite filter_cons_True by (apply Hl; by left).
  f_equal. apply IH. intros y Hy. apply Hl. by right.
Qed.

Lemma filter_none {A : Type} (P : A → Prop) `{∀ x, Decision (P x)} (l : list A) :
  (∀ x, x ∈ l → ¬ P x) → filter P l = [].
Proof.
  induction l as [|x l IH]; intros Hl; [done|].
  rewrite filter_cons_False by (apply Hl; by left).
  apply IH. intros y Hy. apply Hl. by right.
Qed.

(** Of a list cut into pieces, one from each group, the indices of a group
    are those of its piece. *)
Lemma filter_concat_piece (groups pieces : list (list nat)) (j : nat)
    (G piece : list nat) :
  Forall2 (⊆) pieces groups → NoDup (concat groups) →
  groups !! j = Some G → pieces !! j = Some piece →
  filter (.∈ G) (concat pieces) = piece.
Proof.
  intros Hsub. revert j.
  induction Hsub as [|p g pieces groups Hpg Hsub IH]; intros j Hnodup HG Hp;
    [done|].
  simpl in Hnodup. apply NoDup_app in Hnodup as (_ & Hdisj & Hnodup).
  assert (Hrest : ∀ x, x ∈ concat pieces → x ∈ concat groups).
  { intros x (q & Hq & Hx)%elem_of_concat.
    apply list_elem_of_lookup in Hq as [k Hk].
    destruct (Forall2_lookup_l _ _ _ _ _ Hsub Hk) as (g' & Hg' & Hqg).
    apply elem_of_concat. exists g'. split; [|by apply Hqg].
    by eapply list_elem_of_lookup_2. }
  simpl. rewrite filter_app. destruct j as [|j]; simplify_eq/=.
  - rewrite filter_all by done. rewrite filter_none; [by rewrite app_nil_r|].
    intros x Hx HxG. by apply (Hdisj x HxG), Hrest.
  - rewrite filter_none; [by eapply IH|].
    intros x Hx HxG. apply (Hdisj x (Hpg x Hx)).
    apply elem_of_concat. exists G. split; [|done].
    by eapply list_elem_of_lookup_2.
Qed.

End count_facts.

Section train_count.
Context `{Platform}.
Implicit Types (st : split_state).

Lemma zip_with_slices_subseteq (f : list nat → Z → list nat)
    (shs pools groups : list (list nat)) (ns : list Z) :
  (∀ l n x, x ∈ f l n → x ∈ l) →
  length ns = length pools →
  Forall2 (≡ₚ) shs pools → Forall2 (⊆) pools groups →
  Forall2 (⊆) (zip_with f shs ns) groups.
Proof.
  intros Hf Hlen Hshs Hpools.
  apply Forall2_same_length_lookup. split.
  - rewrite length_zip_with. apply Forall2_length in Hshs, Hpools. lia.
  - intros k x G Hx HG.
    apply lookup_zip_with_Some in Hx as (sh & n & -> & Hsh & Hn).
    destruct (Forall2_lookup_l _ _ _ _ _ Hshs Hsh) as (pool & Hpool & Hperm).
    pose proof (Forall2_lookup_lr _ _ _ _ _ _ Hpools Hpool HG) as Hsub.
    intros y Hy. apply Hsub. rewrite <-Hperm. by eapply Hf.
Qed.

Lemma count_inv_step splits split_ratio groups j0 G p r i split st st' :
  Forall (λ r, 0 ≤ r) split_ratio → 0 < py_sum split_ratio →
  Z.of_nat (length G) * py_sum split_ratio < 2 ^ 53 →
  groups !! j0 = Some G →
  split_ratio !! p = Some r →
  (split = "train" ↔ i = p) →
  pass_spec (kind_of splits split) (length <$> groups) split_ratio i split st st' →
  count_inv splits split_ratio groups j0 G p r i st →
  count_inv splits split_ratio groups j0 G p r (S i) st'.
Proof.
  intros Hnn Hsum Hbound HG Hr Htrain Hpass (Hsub & (pool & Hpool & Hshare) & Hdone).
  assert (Hkeep : index_for_sessions st' = index_for_sessions st →
                  data_split st' = <[split := data_split st' !!! split]> (data_split st) →
                  split ≠ "train" →
                  count_inv splits split_ratio groups j0 G p r (S i) st').
  { intros Hp Hd Hne. split; [by rewrite Hp|]. split.
    - exists pool. rewrite Hp. split; [done|].
      pose proof (py_sum_drop_le split_ratio i Hnn). nia.
    - intros Hlt. assert (p ≠ i) by (intros ->; by apply Hne, Htrain).
      destruct Hdone as (pieces & piece & Hds & ?); [lia|].
      exists pieces, piece. split; [|done].
      by rewrite Hd, lookup_insert_ne. }
  destruct (kind_of splits split) eqn:Hkind; simpl in Hpass.
  - destruct Hpass as (shs & ns & Hshs & Hns & Hpools & Hds).
    pose proof (Forall2_length _ _ _ Hshs) as Hlen1.
    pose proof (Forall2_length _ _ _ Hns) as Hlen2. rewrite length_seq in Hlen2.
    (* group [j0] in this round *)
    destruct (Forall2_lookup_r _ _ _ _ _ Hshs Hpool) as (sh & Hsh & Hperm).
    assert (Hj0 : (j0 < length (index_for_sessions st))%nat)
      by (by eapply lookup_lt_Some).
    destruct (Forall2_lookup_l _ _ _ j0 j0 Hns) as (n & Hn & Hnj).
    { by apply lookup_seq. }
    apply (n_snts_of_floor _ _ _ _ (length G)) in Hnj as (ri & Hri & Hri0 & ->);
      [|done|done|by rewrite list_lookup_fmap, HG|done].
    set (n := Z.of_nat (length G) * ri / py_sum split_ratio) in *.
    rewrite (py_sum_drop_S _ _ _ Hri) in Hshare.
    assert (Hn0 : 0 ≤ n) by (apply Z.div_pos; nia).
    assert (Hnle : n * py_sum split_ratio ≤ Z.of_nat (length G) * ri).
    { unfold n. rewrite Z.mul_comm. apply Z.mul_div_le. lia. }
    assert (Hrest : 0 ≤ py_sum (drop (S i) split_ratio)).
    { apply py_sum_nonneg. by apply Forall_drop. }
    assert (Hfit : n ≤ Z.of_nat (length sh)) by (rewrite Hperm; nia).
    split; [|split].
    + rewrite Hpools.
      eapply (zip_with_slices_subseteq _ shs (index_for_sessions st)); [|lia|done..].
      intros l m x. apply py_del0_subseteq.
    + exists (py_del0 sh n). split.
      * rewrite Hpools. apply lookup_zip_with_Some. by exists sh, n.
      * rewrite length_py_del0, slice_stop_nonneg by lia.
        rewrite Hperm in *. nia.
    + intros Hlt. destruct (decide (i = p)) as [->|Hne].
      * assert (split = "train") as -> by (by apply Htrain).
        rewrite Hr in Hri. injection Hri as <-.
        exists (zip_with py_slice0 shs ns), (py_slice0 sh n).
        split; [by rewrite Hds, lookup_insert_eq|]. split; [|split].
        -- eapply (zip_with_slices_subseteq _ shs (index_for_sessions st));
             [|lia|done..].
           intros l m x. apply py_slice0_subseteq.
        -- apply lookup_zip_with_Some. by exists sh, n.
        -- rewrite length_py_slice0, slice_stop_nonneg by lia. done.
      * destruct Hdone as (pieces & piece & Hd & ?); [lia|].
        exists pieces, piece. split; [|done].
        rewrite Hds, lookup_insert_ne; [done|]. intros ->. by apply Hne, Htrain.
  - destruct Hpass as (Hp & Hd & _). apply Hkeep; [done| |].
    + by rewrite Hd, lookup_total_insert_eq.
    + intros ->. unfold kind_of in Hkind. by rewrite decide_True in Hkind.
  - destruct Hpass as (Hp & Hd & _). apply Hkeep; [done| |].
    + by rewrite Hd, lookup_total_insert_eq.
    + intros ->. unfold kind_of in Hkind. by rewrite decide_True in Hkind.
Qed.

Lemma split_loop_train_count splits split_ratio groups g st p r j0 G :
  Forall (λ r, 0 ≤ r) split_ratio → 0 < py_sum split_ratio →
  Z.of_nat (length G) * py_sum split_ratio < 2 ^ 53 →
  NoDup (concat groups) → groups !! j0 = Some G →
  splits !! p = Some "train" → (∀ p', splits !! p' = Some "train" → p' = p) →
  split_ratio !! p = Some r →
  split_loop splits split_ratio groups g = Ok st →
  ∃ train,
    data_split st !! "train" = Some train
    ∧ length (filter (.∈ G) train)
      = Z.to_nat (Z.of_nat (length G) * r / py_sum split_ratio).
Proof.
  intros Hnn Hsum Hbound Hnodup HG Hp Hunique Hr Hloop.
  unfold split_loop in Hloop.
  apply (foldlM_enumerate_inv (count_inv splits split_ratio groups j0 G p r))
    in Hloop.
  - destruct Hloop as (_ & _ & Hdone).
    destruct Hdone as (pieces & piece & Hds & Hsub & Hpiece & <-).
    { by eapply lookup_lt_Some. }
    exists (concat pieces). split; [done|].
    by rewrite (filter_concat_piece groups pieces j0 G piece).
  - intros i split st1 st2 Hi Hinv Hpass. apply split_pass_spec in Hpass.
    eapply count_inv_step; try done.
    split; [intros ->; by apply Hunique|by intros ->; simplify_eq].
  - split; [|split]; simpl.
    + by apply Forall2_same_length_lookup_2; [|intros; simplify_eq].
    + exists G. by split.
    + lia.
Qed.

End train_count.

(** *** When the rounds run to the end *)

Section total_facts.
Context `{Platform}.
Implicit Types (st : split_state).

Lemma take_loop_total splits session_len split_ratio i split k :
  kind_of splits split = Take →
  ∀ j st,
    (j + k ≤ length (index_for_sessions st))%nat →
    is_Some (data_split st !! split) →
    (∀ j', (j ≤ j' < j + k)%nat →
           ∃ n, n_snts_of session_len split_ratio i j' = Ok n) →
    ∃ st', foldlM (split_body splits session_len split_ratio i split) st (seq j k)
           = Ok st'.
Proof.
  intros Hkind. induction k as [|k IH]; intros j st Hlen [cur Hcur] Hns; simpl.
  - by exists st.
  - rewrite split_body_kind, Hkind. unfold take_step, py_index.
    destruct (index_for_sessions st !! j) as [pool|] eqn:Hpool;
      [|apply lookup_ge_None in Hpool; lia].
    simpl. destruct (Hns j ltac:(lia)) as [n ->]. simpl.
    unfold py_getitem. rewrite Hcur. simpl. apply IH; simpl.
    + rewrite length_insert. lia.
    + rewrite lookup_insert_eq. by eexists.
    + intros j' Hj'. apply Hns. lia.
Qed.

Lemma keep_loop_total splits session_len split_ratio i split k :
  kind_of splits split = Keep →
  ∀ j st,
    (j + k ≤ length (index_for_sessions st))%nat →
    is_Some (data_split st !! split) →
    ∃ st', foldlM (split_body splits session_len split_ratio i split) st (seq j k)
           = Ok st'.
Proof.
  intros Hkind. induction k as [|k IH]; intros j st Hlen [cur Hcur]; simpl.
  - by exists st.
  - rewrite split_body_kind, Hkind. unfold keep_step, py_index.
    destruct (index_for_sessions st !! j) as [pool|] eqn:Hpool;
      [|apply lookup_ge_None in Hpool; lia].
    simpl. unfold py_getitem. rewrite Hcur. simpl. apply IH; simpl.
    + lia.
    + rewrite lookup_insert_eq. by eexists.
Qed.

(** A round runs to its end unless a [Take] round fails to work out a
    share. *)
Lemma split_pass_total splits session_len split_ratio st i split :
  (kind_of splits split = Take →
   ∀ j, (j < length (index_for_sessions st))%nat →
        ∃ n, n_snts_of session_len split_ratio i j = Ok n) →
  ∃ st', split_pass splits session_len split_ratio st (i, split) = Ok st'.
Proof.
  intros Hns. unfold split_pass. cbn [fst snd index_for_sessions].
  destruct (kind_of splits split) eqn:Hkind.
  - apply take_loop_total; simpl; [done|lia|by rewrite lookup_insert_eq|].
    intros j' Hj'. apply Hns; [done|lia].
  - apply keep_loop_total; simpl; [done|lia|by rewrite lookup_insert_eq].
  - rewrite idle_loop by done. by eexists.
Qed.

End total_facts.

(** *** Two sessions of ten and five rows, split 90 to 10 *)

Section two_sessions.
Context `{Platform}.

Lemma split_loop_two_sessions g :
  ∃ st sh0 sh1,
    split_loop ["train"; "valid"] [90; 10] [seq 0 10; seq 10 5] g = Ok st
    ∧ sh0 ≡ₚ seq 0 10 ∧ sh1 ≡ₚ seq 10 5
    ∧ data_split st !! "train" = Some (take 9 sh0 ++ take 4 sh1)
    ∧ data_split st !! "valid" = Some (drop 9 sh0 ++ drop 4 sh1).
Proof.
  unfold split_loop, enumerate. cbn [length seq zip zip_with fmap list_fmap].
  set (splits := ["train"; "valid"]). set (lens := [10%nat; 5%nat]).
  set (st0 := {| index_for_sessions := _; data_split := ∅; rng_now := g |}).
  destruct (split_pass_total splits lens [90; 10] st0 0 "train") as [st1 Hst1].
  { intros _ [|[|j]] Hj; simpl in Hj; [by exists 9|by exists 4|lia]. }
  destruct (split_pass_total splits lens [90; 10] st1 1 "valid") as [st2 Hst2].
  { by intros [=]. }
  exists st2. cbn [foldlM]. rewrite Hst1. simpl. rewrite Hst2. simpl.
  apply split_pass_spec in Hst1, Hst2.
  change (kind_of splits "train") with Take in Hst1.
  change (kind_of splits "valid") with Keep in Hst2.
  destruct Hst1 as (shs & ns & Hshs & Hns & Hpools1 & Hds1).
  destruct Hst2 as (Hpools2 & Hds2 & _).
  simpl in Hshs, Hns.
  destruct shs as [|sh0 [|sh1 [|? ?]]];
    try (by repeat match goal with H : Forall2 _ _ _ |- _ => inversion H; clear H end).
  apply Forall2_cons in Hshs as [Hsh0 Hshs]. apply Forall2_cons in Hshs as [Hsh1 _].
  destruct ns as [|n0 [|n1 [|? ?]]];
    try (by repeat match goal with H : Forall2 _ _ _ |- _ => inversion H; clear H end).
  apply Forall2_cons in Hns as [Hn0 Hns]. apply Forall2_cons in Hns as [Hn1 _].
  injection Hn0 as <-. injection Hn1 as <-.
  pose proof (Permutation_length Hsh0) as Hl0.
  pose proof (Permutation_length Hsh1) as Hl1.
  simpl in Hl0, Hl1.
  exists sh0, sh1. split; [done|]. split; [done|]. split; [done|].
  rewrite Hds2, Hpools1, Hds1. simpl. unfold py_slice0, py_del0. rewrite Hl0, Hl1.
  simpl. rewrite !app_nil_r.
  split; [by rewrite lookup_insert_ne, lookup_insert_eq|by rewrite lookup_insert_eq].
Qed.

(** C7.  On a catalog whose rows are ten of session LJ001 followed by five
    of session LJ002, with splits train, valid and ratios 90, 10,
    [split_sets] returns, whatever state the random generator is in:
    train holds nine indices of the first session and four of the second,
    thirteen in all, and valid holds the two indices left, as the train
    round left them. *)
Theorem split_sets_two_sessions (data_folder text : string) (w : world) :
  fs w !! os_path_join data_folder METADATA_CSV = Some (File (Text text)) →
  Forall2 in_session (csv_reader text) (replicate 10 "LJ001" ++ replicate 5 "LJ002") →
  ∃ ds w' sh0 sh1 train valid,
    split_sets data_folder ["train"; "valid"] [90; 10] w
    = Ok ((ds, csv_reader text), w')
    ∧ sh0 ≡ₚ seq 0 10 ∧ sh1 ≡ₚ seq 10 5
    ∧ ds !! "train" = Some train ∧ train = take 9 sh0 ++ take 4 sh1
    ∧ ds !! "valid" = Some valid ∧ valid = drop 9 sh0 ++ drop 4 sh1
    ∧ length train = 13%nat ∧ length valid = 2%nat
    ∧ length (filter (.∈ seq 0 10) train) = 9%nat
    ∧ length (filter (.∈ seq 10 5) train) = 4%nat
    ∧ train ++ valid ≡ₚ seq 0 15.
Proof.
  intros Hf Hrows. apply group_sessions_ids in Hrows.
  change (group_ids _) with [seq 0 10; seq 10 5] in Hrows.
  destruct (split_loop_two_sessions (rng w))
    as (st & sh0 & sh1 & Hst & Hsh0 & Hsh1 & Htrain & Hvalid).
  pose proof (Permutation_length Hsh0) as Hl0.
  pose proof (Permutation_length Hsh1) as Hl1. simpl in Hl0, Hl1.
  eexists (data_split st), _, sh0, sh1,
    (take 9 sh0 ++ take 4 sh1), (drop 9 sh0 ++ drop 4 sh1).
  split; [exact (split_sets_ok _ _ _ _ _ _ _ Hf Hrows Hst)|].
  do 2 (split; [done|]). do 2 (split; [done|]). do 2 (split; [done|]).
  assert (H0 : ∀ n x, x ∈ take n sh0 → x ∈ seq 0 10).
  { intros n x Hx. rewrite <-Hsh0. by eapply subseteq_take. }
  assert (H1 : ∀ n x, x ∈ take n sh1 → x ∈ seq 10 5).
  { intros n x Hx. rewrite <-Hsh1. by eapply subseteq_take. }
  split; [|split; [|split; [|split]]].
  - rewrite length_app, !length_take. lia.
  - rewrite length_app, !length_drop. lia.
  - rewrite filter_app, (filter_all _ (take 9 sh0)) by eauto.
    rewrite filter_none, app_nil_r, length_take; [lia|].
    intros x Hx%H1 Hx'. apply elem_of_seq in Hx, Hx'. lia.
  - rewrite filter_app, (filter_all _ (take 4 sh1)) by eauto.
    rewrite filter_none; [simpl; rewrite length_take; lia|].
    intros x Hx%H0 Hx'. apply elem_of_seq in Hx, Hx'. lia.
  - change (seq 0 15) with (seq 0 10 ++ seq 10 5). rewrite <-Hsh0, <-Hsh1.
    rewrite <-(take_drop 9 sh0) at 3. rewrite <-(take_drop 4 sh1) at 3.
    rewrite <-!app_assoc. f_equiv. rewrite !app_assoc. f_equiv.
    apply Permutation_app_comm.
Qed.

End two_sessions.

Section train_count_theorem.
Context `{Platform}.

(** C4 (amended).  With non-negative ratios of positive sum, train listed
    once among the splits, and a session group [G] of the catalog whose
    size times the sum of the ratios is below [2 ^ 53], the indices of [G]
    that [split_sets] gives to train number
    [floor (size * train_ratio / sum)], whatever state the random generator
    is in. *)
Theorem split_sets_train_count (data_folder : string) (splits : list string)
    (split_ratio : list Z) (w w' : world) (ds : gmap string (list nat))
    (rows : list (list string)) (groups : list (list nat)) (G : list nat)
    (p : nat) (r : Z) :
  Forall (λ r, 0 ≤ r) split_ratio → 0 < py_sum split_ratio →
  splits !! p = Some "train" → (∀ p', splits !! p' = Some "train" → p' = p) →
  split_ratio !! p = Some r →
  split_sets data_folder splits split_ratio w = Ok ((ds, rows), w') →
  group_sessions rows = Ok groups → G ∈ groups →
  Z.of_nat (length G) * py_sum split_ratio < 2 ^ 53 →
  ∃ train,
    ds !! "train" = Some train
    ∧ length (filter (.∈ G) train)
      = Z.to_nat (Z.of_nat (length G) * r / py_sum split_ratio).
Proof.
  intros Hnn Hsum Hp Hunique Hr
    (text & groups' & st & _ & -> & Hg & Hloop & -> & _)%split_sets_inv Hgroups
    [j0 HG]%list_elem_of_lookup Hbound.
  rewrite Hg in Hgroups. injection Hgroups as ->.
  eapply split_loop_train_count; try done.
  by eapply group_sessions_NoDup.
Qed.

End train_count_theorem.

(** *** The order of the rounds *)

Lemma py_sum_Permutation (l k : list Z) : l ≡ₚ k → py_sum l = py_sum k.
Proof. induction 1; simpl; lia. Qed.

Lemma py_slice0_take {A : Type} (l : list A) (n : Z) :
  0 ≤ n → py_slice0 l n = take (Z.to_nat n) l.
Proof.
  intros Hn. unfold py_slice0, slice_stop.
  destruct (Z.ltb_spec n 0); [lia|].
  destruct (decide (Z.to_nat n ≤ length l)%nat).
  - by rewrite Nat.min_l.
  - rewrite Nat.min_r by lia. rewrite !take_ge by lia. done.
Qed.

Lemma py_del0_drop {A : Type} (l : list A) (n : Z) :
  0 ≤ n → py_del0 l n = drop (Z.to_nat n) l.
Proof.
  intros Hn. unfold py_del0, slice_stop.
  destruct (Z.ltb_spec n 0); [lia|].
  destruct (decide (Z.to_nat n ≤ length l)%nat).
  - by rewrite Nat.min_l.
  - rewrite Nat.min_r by lia. rewrite !drop_ge by lia. done.
Qed.

Section order_facts.
Context `{Platform}.
Implicit Types (st : split_state).

(** A round that takes, against the words of the specification. *)
Lemma pass_take_share (groups : list (list nat)) (split_ratio : list Z)
    (i : nat) (split : string) st st' :
  Forall (λ r, 0 ≤ r) split_ratio → 0 < py_sum split_ratio →
  (∀ G, G ∈ groups → Z.of_nat (length G) * py_sum split_ratio < 2 ^ 53) →
  length (index_for_sessions st) = length groups →
  pass_spec Take (length <$> groups) split_ratio i split st st' →
  ∃ taken,
    takes_share groups (index_for_sessions st) (default 0 (split_ratio !! i))
      (py_sum split_ratio) taken (index_for_sessions st')
    ∧ data_split st' = <[split := taken]> (data_split st).
Proof.
  intros Hnn Hsum Hbound Hlen (shs & ns & Hshs & Hns & Hpools & Hds).
  assert (Hn : ∀ j sh n G, shs !! j = Some sh → ns !! j = Some n →
            groups !! j = Some G →
            0 ≤ n ∧ Z.to_nat n
                    = share (length G) (default 0 (split_ratio !! i))
                        (py_sum split_ratio)).
  { intros j sh n G Hsh Hnj HG.
    destruct (Forall2_lookup_r _ _ _ _ _ Hns Hnj) as (j' & Hj' & Hnsnts).
    apply lookup_seq in Hj' as [-> _]. simpl in Hnsnts.
    apply (n_snts_of_floor _ _ _ _ (length G)) in Hnsnts
      as (r & Hr & Hr0 & ->); try done.
    - rewrite Hr. simpl. split; [|done]. apply Z.div_pos; [nia|done].
    - by rewrite list_lookup_fmap, HG.
    - apply Hbound. by eapply list_elem_of_lookup_2. }
  assert (Hl1 : length shs = length groups).
  { apply Forall2_length in Hshs. lia. }
  assert (Hl2 : length ns = length groups).
  { apply Forall2_length in Hns. rewrite length_seq in Hns. lia. }
  assert (Heq : ∀ (f : list nat → Z → list nat) (g : nat → list nat → list nat),
            (∀ l n, 0 ≤ n → f l n = g (Z.to_nat n) l) →
            zip_with f shs ns
            = zip_with (λ sh G, g (share (length G) (default 0 (split_ratio !! i))
                                     (py_sum split_ratio)) sh) shs groups).
  { intros f g Hfg. apply list_eq. intros j.
    rewrite !lookup_zip_with.
    destruct (shs !! j) as [sh|] eqn:Hsh; [|done]. simpl.
    destruct (lookup_lt_is_Some_2 ns j) as [n Hnj].
    { apply lookup_lt_Some in Hsh. lia. }
    destruct (lookup_lt_is_Some_2 groups j) as [G HG].
    { apply lookup_lt_Some in Hsh. lia. }
    rewrite Hnj, HG. simpl.
    destruct (Hn j sh n G Hsh Hnj HG) as [Hn0 <-]. by rewrite Hfg. }
  eexists. split; [|exact Hds].
  exists shs. split; [done|]. split.
  - f_equal. apply (Heq py_slice0 (λ k l, take k l)). intros l n. apply py_slice0_take.
  - rewrite Hpools. apply (Heq py_del0 (λ k l, drop k l)). intros l n. apply py_del0_drop.
Qed.


Lemma pass_keep_all (session_len : list nat) (split_ratio : list Z)
    (i : nat) (split : string) st st' :
  pass_spec Keep session_len split_ratio i split st st' →
  index_for_sessions st' = index_for_sessions st
  ∧ data_split st' = <[split := concat (index_for_sessions st)]> (data_split st).
Proof. by intros (? & ? & _). Qed.

(** Takes the rounds of the outer loop apart, one hypothesis for each. *)
Ltac split_rounds Hloop :=
  unfold split_loop in Hloop;
  match type of Hloop with
  | context [enumerate ?l] =>
      let e := eval vm_compute in (enumerate l) in
      change (enumerate l) with e in Hloop
  end;
  repeat (let st := fresh "st" in
          let Hpass := fresh "Hpass" in
          apply foldlM_cons_ok in Hloop as (st & Hpass & Hloop);
          apply split_pass_spec in Hpass);
  injection Hloop as Hloop.

Lemma split_loop_in_order splits split_ratio groups g st :
  sublist splits ["train"; "valid"; "test"] →
  Forall (λ r, 0 ≤ r) split_ratio → 0 < py_sum split_ratio →
  (∀ G, G ∈ groups → Z.of_nat (length G) * py_sum split_ratio < 2 ^ 53) →
  split_loop splits split_ratio groups g = Ok st →
  allocated_in_order splits split_ratio groups (data_split st).
Proof.
  intros Hsub%sublist_cases Hnn Hsum Hbound Hloop.
  repeat (apply elem_of_cons in Hsub as [->|Hsub]); [..|by apply elem_of_nil in Hsub];
    split_rounds Hloop; subst st.
  - (* no split *)
    exists groups, groups. by repeat split.
  - (* test *)
    apply (pass_keep_all _ _ 0 "test") in Hpass as [Hp Hd]. simpl in Hp, Hd.
    exists groups, groups. rewrite Hd. by repeat split.
  - (* valid *)
    apply (pass_keep_all _ _ 0 "valid") in Hpass as [Hp Hd]. simpl in Hp, Hd.
    exists groups, groups. rewrite Hd. by repeat split.
  - (* valid, test *)
    apply (pass_take_share groups _ 0 "valid") in Hpass as (taken & Hshare & Hd);
      [|done..].
    apply (pass_keep_all _ _ 1 "test") in Hpass0 as [Hp0 Hd0].
    simpl in Hshare, Hd. rewrite Hd0, Hd.
    exists groups, (index_for_sessions st0). split; [by split|]. split; [|done].
    exists taken. by split.
  - (* train *)
    apply (pass_take_share groups _ 0 "train") in Hpass as (taken & Hshare & Hd);
      [|done..].
    simpl in Hshare, Hd. rewrite Hd.
    exists (index_for_sessions st0), (index_for_sessions st0).
    split; [|by repeat split]. exists taken. by split.
  - (* train, test *)
    apply (pass_take_share groups _ 0 "train") in Hpass as (taken & Hshare & Hd);
      [|done..].
    apply (pass_keep_all _ _ 1 "test") in Hpass0 as [Hp0 Hd0].
    simpl in Hshare, Hd. rewrite Hd0, Hd.
    exists (index_for_sessions st0), (index_for_sessions st0).
    split; [|by repeat split]. exists taken. by split.
  - (* train, valid *)
    apply (pass_take_share groups _ 0 "train") in Hpass as (taken & Hshare & Hd);
      [|done..].
    apply (pass_keep_all _ _ 1 "valid") in Hpass0 as [Hp0 Hd0].
    simpl in Hshare, Hd. rewrite Hd0, Hd.
    exists (index_for_sessions st0), (index_for_sessions st0).
    split; [|by repeat split]. exists taken. by split.
  - (* train, valid, test *)
    apply (pass_take_share groups _ 0 "train") in Hpass as (taken & Hshare & Hd);
      [|done..].
    assert (Hlen : length (index_for_sessions st0) = length groups).
    { destruct Hshare as (shs & Hshs & _ & ->).
      apply Forall2_length in Hshs. simpl in Hshs.
      rewrite length_zip_with. lia. }
    apply (pass_take_share groups _ 1 "valid") in Hpass0 as (taken0 & Hshare0 & Hd0);
      [|done..].
    apply (pass_keep_all _ _ 2 "test") in Hpass1 as [Hp1 Hd1].
    simpl in Hshare, Hd. rewrite Hd1, Hd0, Hd.
    exists (index_for_sessions st0), (index_for_sessions st1).
    split; [|split; [|done]].
    + exists taken. by split.
    + exists taken0. by split.
Qed.


Lemma pass_spec_insert kind session_len split_ratio i split st st' :
  pass_spec kind session_len split_ratio i split st st' →
  ∃ l, data_split st' = <[split := l]> (data_split st).
Proof.
  destruct kind; simpl.
  - intros (shs & ns & _ & _ & _ & ->). by eexists.
  - intros (_ & -> & _). by eexists.
  - intros (_ & -> & _). by eexists.
Qed.

(** The result has a list for every requested split, and for nothing
    else. *)
Lemma split_loop_keys splits split_ratio groups g st s :
  split_loop splits split_ratio groups g = Ok st →
  is_Some (data_split st !! s) ↔ s ∈ splits.
Proof.
  intros Hloop. unfold split_loop in Hloop. revert s.
  cut (∀ s, is_Some (data_split st !! s) ↔ s ∈ take (length splits) splits).
  { intros Hkeys s. by rewrite Hkeys, firstn_all. }
  eapply (foldlM_enumerate_inv
            (λ i st, ∀ s, is_Some (data_split st !! s) ↔ s ∈ take i splits));
    [| |exact Hloop].
  - intros i x st1 st2 Hx Hinv Hpass. apply split_pass_spec in Hpass.
    apply pass_spec_insert in Hpass as [l ->]. intros s.
    rewrite (take_S_r _ _ _ Hx), elem_of_app, list_elem_of_singleton.
    rewrite lookup_insert_is_Some, Hinv. destruct (decide (x = s)); naive_solver.
  - intros s. simpl. rewrite lookup_empty, elem_of_nil. split; [by intros [? ?]|done].
Qed.

Lemma length_concat_elem {A : Type} (ls : list (list A)) (l : list A) :
  l ∈ ls → (length l ≤ length (concat ls))%nat.
Proof.
  induction ls as [|l0 ls IH]; [by intros ?%elem_of_nil|].
  simpl. rewrite length_app. intros [->|Hin]%elem_of_cons; [lia|].
  specialize (IH Hin). lia.
Qed.

Lemma group_sessions_size meta_csv groups G :
  group_sessions meta_csv = Ok groups → G ∈ groups →
  (length G ≤ length meta_csv)%nat.
Proof.
  intros (m & Hm & Hcat)%group_sessions_concat HG%length_concat_elem.
  rewrite Hcat, length_seq in HG. lia.
Qed.

(** C3 (amended).  When the splits are listed in the order train, valid,
    test (any of them may be left out), with ratios that are not negative
    and have a positive sum, [split_sets] allocates the groups in that
    order as the specification words it: train takes the first
    [floor(group_size * ratio / sum)] indices of each shuffled group,
    valid does the same with what is left when test is requested and takes
    all that is left otherwise, and test takes what is left.  Listing the
    splits, with their ratios, in another order can change the lists, but
    not how many indices of a group go to train. *)
Theorem split_sets_in_fixed_order (data_folder : string) (splits : list string)
    (split_ratio : list Z) (w w' : world) (ds : gmap string (list nat))
    (rows : list (list string)) (groups : list (list nat)) :
  sublist splits ["train"; "valid"; "test"] →
  Forall (λ r, 0 ≤ r) split_ratio → 0 < py_sum split_ratio →
  split_sets data_folder splits split_ratio w = Ok ((ds, rows), w') →
  group_sessions rows = Ok groups →
  Z.of_nat (length rows) * py_sum split_ratio < 2 ^ 53 →
  allocated_in_order splits split_ratio groups ds
  ∧ (∀ splits' split_ratio' w2 w2' ds' rows',
       "train" ∈ splits →
       length splits = length split_ratio →
       length splits' = length split_ratio' →
       zip splits' split_ratio' ≡ₚ zip splits split_ratio →
       fs w2 = fs w →
       split_sets data_folder splits' split_ratio' w2 = Ok ((ds', rows'), w2') →
       ∃ train train',
         ds !! "train" = Some train ∧ ds' !! "train" = Some train'
         ∧ ∀ G, G ∈ groups →
                length (filter (.∈ G) train') = length (filter (.∈ G) train)).
Proof.
  intros Hsub Hnn Hsum
    (text & groups0 & st & Hf & -> & Hg & Hloop & -> & _)%split_sets_inv Hgroups Hrows.
  rewrite Hg in Hgroups. injection Hgroups as ->.
  assert (Hbound : ∀ G, G ∈ groups →
            Z.of_nat (length G) * py_sum split_ratio < 2 ^ 53).
  { intros G HG. pose proof (group_sessions_size _ _ _ Hg HG). nia. }
  split; [by apply (split_loop_in_order _ _ _ (rng w))|].
  intros splits' split_ratio' w2 w2' ds' rows' Htrain Hl Hl' Hperm Hfs
    (text' & groups' & st' & Hf' & -> & Hg' & Hloop' & -> & _)%split_sets_inv.
  rewrite Hfs, Hf in Hf'. injection Hf' as <-.
  rewrite Hg in Hg'. injection Hg' as <-.
  assert (Hsplits : splits' ≡ₚ splits).
  { rewrite <-(fst_zip splits' split_ratio'), <-(fst_zip splits split_ratio) by lia.
    by rewrite Hperm. }
  assert (Hratio : split_ratio' ≡ₚ split_ratio).
  { rewrite <-(snd_zip splits' split_ratio'), <-(snd_zip splits split_ratio) by lia.
    by rewrite Hperm. }
  assert (Hnd : NoDup splits).
  { eapply sublist_NoDup; [|exact Hsub]. apply (bool_decide_unpack _). by vm_compute. }
  assert (Hnd' : NoDup splits') by (by rewrite Hsplits).
  pose proof Htrain as [p Hp]%list_elem_of_lookup.
  destruct (lookup_lt_is_Some_2 split_ratio p) as [r Hr].
  { apply lookup_lt_Some in Hp. lia. }
  assert (Hin : ("train", r) ∈ zip splits' split_ratio').
  { rewrite Hperm. apply list_elem_of_lookup. exists p.
    by rewrite lookup_zip_with, Hp, Hr. }
  apply list_elem_of_lookup in Hin as [p' Hp'].
  apply lookup_zip_with_Some in Hp' as (s' & r' & [= <- <-] & Hps' & Hpr').
  destruct (proj2 (split_loop_keys _ _ _ _ _ "train" Hloop) Htrain) as [train Htr].
  destruct (proj2 (split_loop_keys _ _ _ _ _ "train" Hloop'))
    as [train' Htr']; [by rewrite Hsplits|].
  exists train, train'. split; [done|]. split; [done|].
  assert (Hnn' : Forall (λ r, 0 ≤ r) split_ratio') by (by rewrite Hratio).
  pose proof (py_sum_Permutation _ _ Hratio) as Hsame.
  assert (HndG : NoDup (concat groups)) by (by eapply group_sessions_NoDup).
  assert (Huniq : ∀ q, splits !! q = Some "train" → q = p).
  { intros q Hq. apply (NoDup_lookup splits q p "train" Hnd Hq Hp). }
  assert (Huniq' : ∀ q, splits' !! q = Some "train" → q = p').
  { intros q Hq. apply (NoDup_lookup splits' q p' "train" Hnd' Hq Hps'). }
  intros G HG. pose proof HG as [j0 Hj0]%list_elem_of_lookup.
  pose proof (Hbound G HG) as HbG.
  destruct (split_loop_train_count splits split_ratio groups (rng w) st p r j0 G
              Hnn Hsum HbG HndG Hj0 Hp Huniq Hr Hloop) as (t & Ht & Hcount).
  rewrite Htr in Ht. injection Ht as <-.
  rewrite <-Hsame in Hsum, HbG.
  destruct (split_loop_train_count splits' split_ratio' groups (rng w2) st' p' r j0 G
              Hnn' Hsum HbG HndG Hj0 Hps' Huniq' Hpr' Hloop') as (t' & Ht' & Hcount').
  rewrite Htr' in Ht'. injection Ht' as <-.
  by rewrite Hcount', Hcount, Hsame.
Qed.

End order_facts.

(** * The script at work

    Runs of the script on the platform [demo_platform], whose shuffle
    reverses the list. *)

(** C1, counterexample.  With valid listed before train, valid takes both
    rows and train then takes row 1 again: the two lists overlap. *)
Lemma split_sets_valid_before_train_overlap :
  ∃ ds rows w',
    split_sets "data" ["valid"; "train"] [50; 50] (demo_world one_session)
    = Ok ((ds, rows), w')
    ∧ ds !! "valid" = Some [0; 1]%nat
    ∧ ds !! "train" = Some [1%nat]
    ∧ 1%nat ∈ [0; 1]%nat ∧ 1%nat ∈ [1%nat].
Proof.
  eexists _, _, _. split; [vm_compute; reflexivity|].
  split; [vm_compute; reflexivity|]. split; [vm_compute; reflexivity|].
  split; set_solver.
Qed.

(** C1, witness. *)
Lemma split_sets_disjoint_in_order_witness :
  ∃ ds rows w',
    split_sets "data" ["train"; "valid"] [90; 10] (demo_world two_sessions)
    = Ok ((ds, rows), w')
    ∧ (∀ s l x, ds !! s = Some l → x ∈ l → (x < length rows)%nat)
    ∧ (sublist ["train"; "valid"] ["train"; "valid"; "test"] →
       ∀ s1 s2 l1 l2 x, s1 ≠ s2 → ds !! s1 = Some l1 → ds !! s2 = Some l2 →
                        x ∈ l1 → x ∈ l2 → False).
Proof.
  eexists _, _, _. split; [vm_compute; reflexivity|].
  eapply (split_sets_disjoint_in_order "data" ["train"; "valid"] [90; 10]
            (demo_world two_sessions)).
  vm_compute; reflexivity.
Defined.

(** C2.  The catalog ends with a session of one row: its maximal runs are
    the two groups [[0]] and [[1]], but row 1 is in no group of
    [split_sets], and so in no split.  And a catalog whose first session
    is not LJ001 gets an empty group in front. *)
Lemma group_sessions_lone_last_session :
  group_sessions (csv_reader lone_last_session) = Ok [[0%nat]]
  ∧ session_runs ["LJ001"; "LJ002"] = [[0%nat]; [1%nat]]
  ∧ (∃ rows w',
       split_sets "data" ["train"; "valid"] [90; 10] (demo_world lone_last_session)
       = Ok (({[ "train" := []; "valid" := [0%nat] ]}, rows), w')
       ∧ length rows = 2%nat)
  ∧ group_sessions [["LJ002-0001"; "a"; "A"]; ["LJ002-0002"; "b"; "B"]]
    = Ok [[]; [0; 1]%nat].
Proof.
  split; [vm_compute; reflexivity|]. split; [reflexivity|].
  split; [|vm_compute; reflexivity].
  eexists _, _. split; vm_compute; reflexivity.
Qed.

(** C3, counterexample.  The same two splits with the same ratios, listed
    the other way round, give valid another list. *)
Lemma split_sets_order_matters :
  ∃ ds1 ds2 rows w1 w2,
    split_sets "data" ["train"; "valid"] [50; 50] (demo_world one_session)
    = Ok ((ds1, rows), w1)
    ∧ split_sets "data" ["valid"; "train"] [50; 50] (demo_world one_session)
      = Ok ((ds2, rows), w2)
    ∧ ds1 !! "valid" = Some [0%nat]
    ∧ ds2 !! "valid" = Some [0; 1]%nat.
Proof.
  eexists _, _, _, _, _. split; [vm_compute; reflexivity|].
  split; [vm_compute; reflexivity|]. split; vm_compute; reflexivity.
Qed.

(** C3, witness. *)
Lemma split_sets_in_fixed_order_witness :
  ∃ ds rows w',
    split_sets "data" ["train"; "valid"] [90; 10] (demo_world two_sessions)
    = Ok ((ds, rows), w')
    ∧ allocated_in_order ["train"; "valid"] [90; 10] [seq 0 10; seq 10 5] ds
    ∧ (∀ splits' split_ratio' w2 w2' ds' rows',
         "train" ∈ ["train"; "valid"] →
         length ["train"; "valid"] = length [90; 10] →
         length splits' = length split_ratio' →
         zip splits' split_ratio' ≡ₚ zip ["train"; "valid"] [90; 10] →
         fs w2 = fs (demo_world two_sessions) →
         split_sets "data" splits' split_ratio' w2 = Ok ((ds', rows'), w2') →
         ∃ train train',
           ds !! "train" = Some train ∧ ds' !! "train" = Some train'
           ∧ ∀ G, G ∈ [seq 0 10; seq 10 5] →
                  length (filter (.∈ G) train') = length (filter (.∈ G) train)).
Proof.
  eexists _, _, _. split; [vm_compute; reflexivity|].
  eapply (split_sets_in_fixed_order "data" ["train"; "valid"] [90; 10]
            (demo_world two_sessions)).
  - repeat constructor.
  - repeat constructor; lia.
  - reflexivity.
  - vm_compute; reflexivity.
  - vm_compute; reflexivity.
  - vm_compute; reflexivity.
Defined.

(** C4, counterexample.  With ratios [2 ^ 54 - 1] and [1] the quotient
    [(2 ^ 54 - 1) / 2 ^ 54] rounds to the float [1.0], and the one row of
    the group goes to train, where the floor is [0].  With a negative train
    ratio, [-1] of [2], [int] gives [-1] for a group of three, the slice
    leaves out the last index, and train gets two indices. *)
Lemma split_sets_train_count_off :
  (∃ ds rows w',
     split_sets "data" ["train"; "valid"] [2 ^ 54 - 1; 1]
       (demo_world (csv_lines ["LJ001-0001|a|A"]))
     = Ok ((ds, rows), w')
     ∧ group_sessions rows = Ok [[0%nat]]
     ∧ ds !! "train" = Some [0%nat]
     ∧ Z.of_nat (length [0%nat]) * (2 ^ 54 - 1) / py_sum [2 ^ 54 - 1; 1] = 0)
  ∧ (∃ ds rows w',
       split_sets "data" ["train"; "valid"] [-1; 3]
         (demo_world (csv_lines ["LJ001-0001|a|A"; "LJ001-0002|b|B"; "LJ001-0003|c|C"]))
       = Ok ((ds, rows), w')
       ∧ group_sessions rows = Ok [[0; 1; 2]%nat]
       ∧ ds !! "train" = Some [2; 1]%nat
       ∧ Z.of_nat (length [0; 1; 2]%nat) * (-1) / py_sum [-1; 3] = -2).
Proof.
  split; eexists _, _, _; (split; [vm_compute; reflexivity|]);
    (split; [vm_compute; reflexivity|]); split; vm_compute; reflexivity.
Qed.

(** C4, witness. *)
Lemma split_sets_train_count_witness :
  ∃ ds rows w',
    split_sets "data" ["train"; "valid"] [90; 10] (demo_world two_sessions)
    = Ok ((ds, rows), w')
    ∧ ∃ train,
        ds !! "train" = Some train
        ∧ length (filter (.∈ seq 0 10) train)
          = Z.to_nat (Z.of_nat (length (seq 0 10)) * 90 / py_sum [90; 10]).
Proof.
  eexists _, _, _. split; [vm_compute; reflexivity|].
  eapply (split_sets_train_count "data" ["train"; "valid"] [90; 10]
            (demo_world two_sessions) _ _ _ [seq 0 10; seq 10 5] (seq 0 10) 0 90).
  - repeat constructor; lia.
  - reflexivity.
  - reflexivity.
  - intros [|[|p']] Hp'; [done| |]; vm_compute in Hp'; congruence.
  - reflexivity.
  - vm_compute; reflexivity.
  - vm_compute; reflexivity.
  - by left.
  - reflexivity.
Defined.

(** C5.  With a save folder whose name holds the text "train", the
    entries of the validation manifest carry [segment = true] too. *)
Lemma prepare_ljspeech_segment_in_train_folder :
  ∃ w',
    prepare_ljspeech "data" "exp/trainset" ["train"; "valid"] [50; 50] 1234 false ∅
      (demo_world one_session)
    = Ok ((), w')
    ∧ fs w' !! "exp/trainset/valid.json"
      = Some (File (Json [("LJ001-0001",
                           {| wav := "data/wavs/LJ001-0001.wav"; label := "A";
                              segment := true; durations := None |})])).
Proof. eexists. split; vm_compute; reflexivity. Qed.

(** C6, witness.  In a world a run has left, [skip] is true for the splits
    and the configuration of that run, false when test is asked for as
    well, and false for a configuration with another seed. *)
Lemma skip_true_iff_witness :
  (∃ w', skip ["train"; "valid"] "out" demo_conf done_world = Ok (true, w'))
  ∧ skip ["train"; "valid"; "test"] "out" demo_conf done_world = Ok (false, done_world)
  ∧ skip ["train"; "valid"] "out"
      {| conf_data_folder := "data"; conf_splits := ["train"; "valid"];
         conf_split_ratio := [90; 10]; conf_save_folder := "out"; conf_seed := 1 |}
      done_world
    = Ok (false, add_event done_world
                   (EvRead (os_path_join "out" "opt_ljspeech_prepare.pkl"))).
Proof.
  assert (Hall : Forall (manifest_present (fs done_world) "out") ["train"; "valid"]).
  { repeat constructor; eexists; vm_compute; reflexivity. }
  split; [|split].
  - apply (skip_true_iff ["train"; "valid"] "out" demo_conf done_world).
    split; [exact Hall|]. vm_compute; reflexivity.
  - apply (skip_true_iff ["train"; "valid"; "test"] "out" demo_conf done_world).
    + repeat constructor.
    + intros Htest. apply Forall_cons in Htest as [_ Htest].
      apply Forall_cons in Htest as [_ Htest].
      apply Forall_cons in Htest as [(_ & c & Hc) _].
      vm_compute in Hc. discriminate Hc.
  - apply (skip_true_iff ["train"; "valid"] "out" _ done_world)
      with (o := PyConf demo_conf).
    + exact Hall.
    + vm_compute; reflexivity.
    + discriminate.
Defined.

(** C7, witness. *)
Lemma split_sets_two_sessions_witness :
  ∃ ds w' sh0 sh1 train valid,
    split_sets "data" ["train"; "valid"] [90; 10] (demo_world two_sessions)
    = Ok ((ds, csv_reader two_sessions), w')
    ∧ sh0 ≡ₚ seq 0 10 ∧ sh1 ≡ₚ seq 10 5
    ∧ ds !! "train" = Some train ∧ train = take 9 sh0 ++ take 4 sh1
    ∧ ds !! "valid" = Some valid ∧ valid = drop 9 sh0 ++ drop 4 sh1
    ∧ length train = 13%nat ∧ length valid = 2%nat
    ∧ length (filter (.∈ seq 0 10) train) = 9%nat
    ∧ length (filter (.∈ seq 10 5) train) = 4%nat
    ∧ train ++ valid ≡ₚ seq 0 15.
Proof.
  apply (split_sets_two_sessions "data" two_sessions (demo_world two_sessions)).
  - vm_compute; reflexivity.
  - let rows := eval vm_compute in (csv_reader two_sessions) in
    change (csv_reader two_sessions) with rows.
    repeat (constructor; [eexists; split; vm_compute; reflexivity|]).
    constructor.
Defined.

(** C8, witness. *)
Lemma create_symbol_file_hello_world_witness :
  ∃ c1 c2 c3 c4 c5 c6 c7 w',
    create_symbol_file "out" "out/train.json" hello_world_world = Ok ((), w')
    ∧ fs w' !! os_path_join "out" "lexicon"
      = Some (File (Text
          (String c1 (String "009" (String c2 (String "009" (String c3 (String "009"
          (String c4 (String "009" (String c5 (String "009" (String c6 (String "009"
          (String c7 EmptyString)))))))))))))))
    ∧ [c1; c2; c3; c4; c5; c6; c7] ≡ₚ ["h"; "e"; "l"; "o"; "w"; "r"; "d"]%char.
Proof.
  apply (create_symbol_file_hello_world "out" "out/train.json" hello_world_world
           hello_world_manifest).
  - vm_compute; reflexivity.
  - vm_compute; reflexivity.
  - vm_compute; reflexivity.
  - apply (bool_decide_unpack _). vm_compute. exact I.
  - reflexivity.
Defined.

(** C9, witness. *)
Lemma prepare_json_same_item_id_witness :
  ∃ w',
    prepare_json [0; 1]%nat "out/valid.json" "data/wavs" twin_rows None
      (demo_world one_session)
    = Ok ((), w')
    ∧ ∃ d, fs w' !! "out/valid.json" = Some (File (Json d))
       ∧ NoDup d.*1
       ∧ (length d < length [0; 1]%nat)%nat
       ∧ ∃ k ilast lab,
           [0; 1]%nat !! k = Some ilast
           ∧ row_fields twin_rows ilast = Ok ("LJ001-0001", lab)
           ∧ (∀ k' i', (k < k')%nat → [0; 1]%nat !! k' = Some i' →
                       item_id_of twin_rows i' ≠ Some "LJ001-0001")
           ∧ dict_get d "LJ001-0001"
             = Some (entry_of "out/valid.json" "data/wavs" None ("LJ001-0001", lab)).
Proof.
  eexists. split; [vm_compute; reflexivity|].
  apply (prepare_json_same_item_id [0; 1]%nat "out/valid.json" "data/wavs" twin_rows
           None (demo_world one_session) _ 0 1 0 1 "LJ001-0001").
  - lia.
  - reflexivity.
  - reflexivity.
  - reflexivity.
  - reflexivity.
  - vm_compute; reflexivity.
Defined.
